(** * Bulk e-mail sender: batch dispatch and status tracking

    A shallow embedding of the send endpoint (the module the status
    endpoint imports as [./send]), of the status endpoint and of the
    template renderer ([utils/emailHelpers.ts]), followed by the properties
    of the specification that were checked against it.

    Modelling conventions.
    - A JavaScript string is a [string]; the scanning functions work on its
      list of code units ([list ascii], code units 0..255).
    - A JavaScript object used as a dictionary is a [gmap string _]; lookups
      are own-property lookups (records come from JSON / CSV rows).
    - The in-memory [Map] of batches is a [gmap string Batch]; every function
      that touches it takes the store and returns the new one.
    - The delivery provider ([resend.batch.send]) is a parameter: a function
      from the number of calls made so far and the payload to either a
      resolved response or a thrown exception. *)

From Stdlib Require Import String Ascii List ZArith QArith Qround Lia.
From stdpp Require Import gmap strings list fin_maps pretty.
From Equations Require Import Equations.

Local Open Scope Z_scope.
Local Open Scope nat_scope.

(** ** JavaScript string primitives *)

Module Js.

Definition chars (s : string) : list ascii := list_ascii_of_string s.
Definition text (l : list ascii) : string := string_of_list_ascii l.

(** [WhiteSpace] and [LineTerminator] code units below 256, as stripped by
    [String.prototype.trim]. *)
Definition isWhiteSpace (c : ascii) : bool :=
  match nat_of_ascii c with
  | 9 | 10 | 11 | 12 | 13 | 32 | 160 => true
  | _ => false
  end.

Fixpoint trimStart (l : list ascii) : list ascii :=
  match l with
  | c :: l' => if isWhiteSpace c then trimStart l' else l
  | [] => []
  end.

Definition trimEnd (l : list ascii) : list ascii := rev (trimStart (rev l)).

Definition trim (l : list ascii) : list ascii := trimEnd (trimStart l).

(** [s.split(sep)] for a one-character separator: never the empty list. *)
Fixpoint split (sep : ascii) (l : list ascii) : list (list ascii) :=
  match l with
  | [] => [[]]
  | c :: l' =>
      if decide (c = sep) then [] :: split sep l'
      else match split sep l' with
           | p :: ps => (c :: p) :: ps
           | [] => [[c]]
           end
  end.

(** The double quote (code 34) and a text between double quotes. *)
Definition doubleQuote : ascii := ascii_of_nat 34.

Definition quoted (s : string) : string :=
  String doubleQuote (s +:+ String doubleQuote EmptyString).

Definition isQuote (c : ascii) : bool :=
  bool_decide (c = doubleQuote) || bool_decide (c = "'"%char).

(** [s.replace(/^["']|["']$/g, '')]: one quote is removed at the start if
    there is one, then one at the end of what is left if there is one. *)
Definition stripQuotes (l : list ascii) : list ascii :=
  let l1 := match l with
            | c :: l' => if isQuote c then l' else l
            | [] => []
            end in
  match last l1 with
  | Some c => if isQuote c then removelast l1 else l1
  | None => l1
  end.

(** Truthiness of a string. *)
Definition truthy (l : list ascii) : bool :=
  match l with [] => false | _ => true end.

End Js.

(** ** utils/emailHelpers.ts *)

Module EmailHelpers.
Import Js.

(** A field value of a record: [null], a string, or any other value (a
    number, a boolean, an array, an object or a function), which is given
    by the text [String(value)] returns for it; an absent key is
    [undefined]. *)
Inductive JsValue :=
| JNull
| JString (s : string)
| JOther (rendering : string).

(** [interface EmailRecord { [key: string]: any }]: the own properties of
    the object. *)
Abbreviation EmailRecord := (gmap string JsValue).

(** The text [String(f)] gives for a built-in function, as Node prints
    it. *)
Definition nativeFunction (name : string) : string :=
  "function " +:+ name +:+ "() { [native code] }".

(** The methods of [Object.prototype] besides [constructor]. *)
Definition prototypeMethods : list string :=
  ["__defineGetter__"; "__defineSetter__"; "hasOwnProperty"; "__lookupGetter__";
   "__lookupSetter__"; "isPrototypeOf"; "propertyIsEnumerable"; "toString";
   "valueOf"; "toLocaleString"].

(** What a plain object inherits under [key] from [Object.prototype]: the
    function [Object] under [constructor], the prototype itself under
    [__proto__], a method under the name of each method. *)
Definition inherited (key : string) : option JsValue :=
  if decide (key = "constructor") then Some (JOther (nativeFunction "Object"))
  else if decide (key = "__proto__") then Some (JOther "[object Object]")
  else if decide (key ∈ prototypeMethods) then Some (JOther (nativeFunction key))
  else None.

(** [data[key]] on a plain object: the own property if there is one, else
    the inherited one, else [undefined] ([None]). *)
Definition getProperty (data : EmailRecord) (key : string) : option JsValue :=
  match data !! key with
  | Some value => Some value
  | None => inherited key
  end.

Definition openBrace : ascii := "{"%char.
Definition closeBrace : ascii := "}"%char.
Definition pipe : ascii := "|"%char.

(** The longest prefix of characters matching [[^}]], and what follows. *)
Fixpoint spanBody (l : list ascii) : list ascii * list ascii :=
  match l with
  | c :: l' =>
      if decide (c = closeBrace) then ([], l)
      else let '(b, r) := spanBody l' in (c :: b, r)
  | [] => ([], [])
  end.

(** A match of [/\{\{([^}]+)\}\}/] anchored at the head of [l]: the capture
    group and the text after the match. The group is greedy and every
    character it could give back is not a closing brace, so the only
    candidate is the longest run. *)
Definition matchToken (l : list ascii) : option (list ascii * list ascii) :=
  match l with
  | c1 :: c2 :: l2 =>
      if decide (c1 = openBrace) then
        if decide (c2 = openBrace) then
          match spanBody l2 with
          | ((_ :: _) as body, d1 :: d2 :: rest) =>
              if decide (d1 = closeBrace) then
                if decide (d2 = closeBrace) then Some (body, rest)
                else None
              else None
          | _ => None
          end
        else None
      else None
  | _ => None
  end.

(** The text a match came from, given its capture group: [{{variable}}]. *)
Definition token (variable : list ascii) : list ascii :=
  [openBrace; openBrace] ++ variable ++ [closeBrace; closeBrace].

(** The replacer callback [(match, variable) => ...]; [match] is
    [token variable]. *)
Definition replacer (data : EmailRecord) (variable : list ascii) : list ascii :=
  let pieces := map trim (split pipe variable) in
  let varName := pieces !! 0 in
  let fallback := pieces !! 1 in
  let value := getProperty data (text (default [] varName)) in
  match value with
  | Some (JString (String c s)) => chars (String c s)
  | Some (JOther rendering) => chars rendering
  | Some (JString EmptyString) | Some JNull | None =>
      match fallback with
      | Some f => if truthy f then stripQuotes f else token variable
      | None => token variable
      end
  end.

Definition inspect {A : Type} (a : A) : { b : A | a = b } := exist _ a eq_refl.

(** [l.replace(/\{\{([^}]+)\}\}/g, f)], where [f] is given the capture
    group: leftmost matches, left to right, the scan resuming after each
    match; replaced text is not scanned again. *)
Equations? replaceAll (f : list ascii -> list ascii) (l : list ascii) : list ascii
  by wf (length l) lt :=
  replaceAll f [] := [];
  replaceAll f (c :: l') with inspect (matchToken (c :: l')) => {
    | exist _ (Some (body, rest)) _ := f body ++ replaceAll f rest;
    | exist _ None _ := c :: replaceAll f l' }.
Proof.
  assert (Hspan : forall l b r, spanBody l = (b, r) -> length l = length b + length r).
  { induction l as [|a l IH]; intros b r; simpl.
    - intros [= <- <-]; reflexivity.
    - destruct (decide (a = closeBrace)).
      + intros [= <- <-]; reflexivity.
      + destruct (spanBody l) as [b' r'] eqn:E.
        intros [= <- <-]. simpl. rewrite (IH b' r' eq_refl). reflexivity. }
  change (matchToken (c :: l') = Some (body, rest)) in e.
  unfold matchToken in e.
  destruct l' as [|c2 l2]; try discriminate.
  destruct (decide (c = openBrace)); try discriminate.
  destruct (decide (c2 = openBrace)); try discriminate.
  destruct (spanBody l2) as [b r] eqn:E.
  destruct b as [|b0 b]; try discriminate.
  destruct r as [|d1 [|d2 r]]; try discriminate.
  destruct (decide (d1 = closeBrace)); try discriminate.
  destruct (decide (d2 = closeBrace)); try discriminate.
  injection e as <- <-. apply Hspan in E. simpl in *. lia.
Qed.

(** [if (!template || !data) return template]: [data] is an object, so only
    the empty template takes the early exit. *)
Definition replaceVariables (template : string) (data : EmailRecord) : string :=
  match template with
  | EmptyString => template
  | _ => text (replaceAll (replacer data) (chars template))
  end.

(** The pieces the scan of [l.replace(/\{\{([^}]+)\}\}/g, f)] cuts [l]
    into: the matches, given by their capture groups, and the characters
    that are copied. *)
Inductive Segment :=
| Lit (c : ascii)
| Tok (variable : list ascii).

Equations? segments (l : list ascii) : list Segment by wf (length l) lt :=
  segments [] := [];
  segments (c :: l') with inspect (matchToken (c :: l')) => {
    | exist _ (Some (body, rest)) _ := Tok body :: segments rest;
    | exist _ None _ := Lit c :: segments l' }.
Proof.
  assert (Hspan : forall l b r, spanBody l = (b, r) -> length l = length b + length r).
  { induction l as [|a l IH]; intros b r; simpl.
    - intros [= <- <-]; reflexivity.
    - destruct (decide (a = closeBrace)).
      + intros [= <- <-]; reflexivity.
      + destruct (spanBody l) as [b' r'] eqn:E.
        intros [= <- <-]. simpl. rewrite (IH b' r' eq_refl). reflexivity. }
  change (matchToken (c :: l') = Some (body, rest)) in e.
  unfold matchToken in e.
  destruct l' as [|c2 l2]; try discriminate.
  destruct (decide (c = openBrace)); try discriminate.
  destruct (decide (c2 = openBrace)); try discriminate.
  destruct (spanBody l2) as [b r] eqn:E.
  destruct b as [|b0 b]; try discriminate.
  destruct r as [|d1 [|d2 r]]; try discriminate.
  destruct (decide (d1 = closeBrace)); try discriminate.
  destruct (decide (d2 = closeBrace)); try discriminate.
  injection e as <- <-. apply Hspan in E. simpl in *. lia.
Qed.

(** The text of the template a segment stands for, and the text the output
    has in its place when [f] is the replacer callback. *)
Definition sourceOf (seg : Segment) : list ascii :=
  match seg with
  | Lit c => [c]
  | Tok variable => token variable
  end.

Definition outputOf (f : list ascii -> list ascii) (seg : Segment) : list ascii :=
  match seg with
  | Lit c => [c]
  | Tok variable => f variable
  end.

(** A token body written as its pieces: a name and what follows each
    further [|]. *)
Definition tokenBody (name : list ascii) (more : list (list ascii)) : list ascii :=
  name ++ flat_map (fun q => pipe :: q) more.

(** For comparison, the resolution rule in the words of the specification:
    the body is split on the first [|] only, both parts are trimmed, and a
    fallback that was supplied is used with its quotes stripped. *)
Fixpoint splitFirst (sep : ascii) (l : list ascii) : list ascii * option (list ascii) :=
  match l with
  | [] => ([], None)
  | c :: l' =>
      if decide (c = sep) then ([], Some l')
      else let '(a, b) := splitFirst sep l' in (c :: a, b)
  end.

Definition specReplacer (data : EmailRecord) (variable : list ascii) : list ascii :=
  let '(name, fallback) := splitFirst pipe variable in
  match data !! text (trim name) with
  | Some (JString (String c s)) => chars (String c s)
  | Some (JOther rendering) => chars rendering
  | Some (JString EmptyString) | Some JNull | None =>
      match fallback with
      | Some f => stripQuotes (trim f)
      | None => token variable
      end
  end.

Definition specRender (template : string) (data : EmailRecord) : string :=
  text (replaceAll (specReplacer data) (chars template)).

End EmailHelpers.

(** ** The send endpoint ([send.ts]): data model *)

Module Send.
Import Js.

(** [interface EmailRecord { email: string; [key: string]: any }]: the
    object has the key [email] and any other keys. *)
Record EmailRecord := {
  email : string;
  fields : gmap string EmailHelpers.JsValue
}.

(** The recipient seen as the dictionary [replaceVariables] reads. *)
Definition asData (recipient : EmailRecord) : gmap string EmailHelpers.JsValue :=
  <["email" := EmailHelpers.JString (email recipient)]> (fields recipient).

Inductive ResultStatus := success | failed.

Global Instance ResultStatus_eq_dec : EqDecision ResultStatus.
Proof. solve_decision. Defined.

(** [interface EmailResult] *)
Record EmailResult := {
  re_email : string;
  re_status : ResultStatus;
  messageId : option string;
  error : option string
}.

Inductive BatchStatus := processing | completed | batchFailed.

Global Instance BatchStatus_eq_dec : EqDecision BatchStatus.
Proof. solve_decision. Defined.

(** A value of the [batchResults] map; [createdAt] in milliseconds. *)
Record Batch := {
  results : list EmailResult;
  status : BatchStatus;
  totalSent : Z;
  totalFailed : Z;
  createdAt : Z
}.

Abbreviation Store := (gmap string Batch).

(** The messages [sendEmailBatch] receives. *)
Record Email := {
  to : string;
  subjectLine : string;
  html : string;
  text : option string
}.

(** The payloads handed to [resend.batch.send]. *)
Record Payload := {
  pl_from : string;
  pl_to : list string;
  pl_subject : string;
  pl_html : string;
  pl_text : option string
}.

(** What the provider answers. An entry carries an [id] or not; the data
    is a flat list, an object with a nested [data] list, or one object. *)
Record SendItem := { item_id : option string }.

Inductive ResponseData :=
| DataArray (items : list SendItem)
| DataNested (items : list SendItem)
| DataObject (item : SendItem).

Record ErrorResponse := { err_message : string }.

Record Response := {
  resp_data : option ResponseData;
  resp_error : option ErrorResponse
}.

(** A thrown value: an [Error] with its message, or anything else. *)
Inductive Thrown :=
| ErrorObject (msg : string)
| NotAnError.

Inductive ProviderReply :=
| Resolves (response : Response)
| Rejects (e : Thrown).

(** What the background task does that an observer can see besides the
    store: provider calls and pacing delays (milliseconds). *)
Inductive Event :=
| EvSend (payloads : list Payload)
| EvDelay (ms : Z).

(** The payloads of the provider calls of a trace, in order. *)
Fixpoint sentPayloads (tr : list Event) : list (list Payload) :=
  match tr with
  | [] => []
  | EvSend p :: tr' => p :: sentPayloads tr'
  | EvDelay _ :: tr' => sentPayloads tr'
  end.

(** A trace in which consecutive provider calls are separated by exactly
    one delay of 1000 ms, with no delay before the first call or after the
    last one. *)
Fixpoint wellPaced (tr : list Event) : bool :=
  match tr with
  | [] => true
  | EvDelay _ :: _ => false
  | EvSend _ :: tr' =>
      match tr' with
      | [] => true
      | EvSend _ :: _ => false
      | EvDelay ms :: tr'' =>
          bool_decide (ms = 1000%Z)
          && match tr'' with [] => false | _ => wellPaced tr'' end
      end
  end.

Definition jsTruthy (s : string) : bool :=
  match s with EmptyString => false | _ => true end.

(** ** sendEmailBatch *)

Definition fromField (fromEmail : string) (fromName : option string) : string :=
  match fromName with
  | Some n => if jsTruthy n then n +:+ " <" +:+ fromEmail +:+ ">" else fromEmail
  | None => fromEmail
  end.

Definition emailPayloads (emails : list Email) (fromEmail : string)
    (fromName : option string) : list Payload :=
  map (fun e => {| pl_from := fromField fromEmail fromName;
                   pl_to := [to e];
                   pl_subject := subjectLine e;
                   pl_html := html e;
                   pl_text := text e |}) emails.

Definition successResult (e : Email) (id : string) : EmailResult :=
  {| re_email := to e; re_status := success; messageId := Some id; error := None |}.

Definition failedResult (msg : string) (e : Email) : EmailResult :=
  {| re_email := to e; re_status := failed; messageId := None; error := Some msg |}.

(** The body of the [forEach] callbacks: [if (result.id) ... else ...]. *)
Definition itemResult (e : Email) (result : SendItem) : EmailResult :=
  match item_id result with
  | Some id => if jsTruthy id then successResult e id
               else failedResult "No message ID returned" e
  | None => failedResult "No message ID returned" e
  end.

(** Reading [.to] of [emails[index]] when the index is out of range throws
    a [TypeError]; the text is the engine's. *)
Definition undefinedRead : Thrown :=
  ErrorObject "Cannot read properties of undefined (reading 'to')".

(** [items.forEach((result, index) => results.push(...))]: the array after
    the pushes that happened, and the exception if one was thrown. *)
Fixpoint pushEach (emails : list Email) (items : list SendItem) (index : nat)
    (results : list EmailResult) : list EmailResult * option Thrown :=
  match items with
  | [] => (results, None)
  | result :: items' =>
      match emails !! index with
      | Some e => pushEach emails items' (S index) (results ++ [itemResult e result])
      | None => (results, Some undefinedRead)
      end
  end.

(** [response.error?.message || 'Batch send failed'] *)
Definition errorText (response : Response) : string :=
  match resp_error response with
  | Some e => if jsTruthy (err_message e) then err_message e else "Batch send failed"
  | None => "Batch send failed"
  end.

(** [error instanceof Error ? error.message : 'Unknown error'] *)
Definition thrownText (e : Thrown) : string :=
  match e with
  | ErrorObject msg => msg
  | NotAnError => "Unknown error"
  end.

(** The [try] block: the events, the [results] array as it stands when the
    block ends, and the exception if it ended by one. *)
Definition sendEmailBatch_try (send : list Payload -> ProviderReply)
    (emails : list Email) (fromEmail : string) (fromName : option string)
    : list Event * (list EmailResult * option Thrown) :=
  let payloads := emailPayloads emails fromEmail fromName in
  match send payloads with
  | Rejects e => ([EvSend payloads], ([], Some e))
  | Resolves response =>
      ([EvSend payloads],
       match resp_data response, resp_error response with
       | Some d, None =>
           match d with
           | DataArray items => pushEach emails items 0 []
           | DataNested items => pushEach emails items 0 []
           | DataObject result =>
               match emails !! 0 with
               | Some e => ([itemResult e result], None)
               | None => ([], Some undefinedRead)
               end
           end
       | _, _ => (map (failedResult (errorText response)) emails, None)
       end)
  end.

(** [try { ... } catch (error) { emails.forEach(... push failed ...) }
    return results]. *)
Definition sendEmailBatch (send : list Payload -> ProviderReply)
    (emails : list Email) (fromEmail : string) (fromName : option string)
    : list Event * list EmailResult :=
  let r := sendEmailBatch_try send emails fromEmail fromName in
  (r.1,
   match r.2.2 with
   | None => r.2.1
   | Some e => r.2.1 ++ map (failedResult (thrownText e)) emails
   end).

(** ** processBatchAsync *)

Definition BATCH_SIZE : nat := 100.

(** [array.slice(start, end)] for [start <= end]. *)
Definition slice {A : Type} (start stop : nat) (l : list A) : list A :=
  take (stop - start) (drop start l).

Definition countStatus (s : ResultStatus) (l : list EmailResult) : Z :=
  Z.of_nat (length (filter (fun r => re_status r = s) l)).

(** The state of the [for] loop: the index [i], the local [allResults],
    and, for the observer, the number of provider calls made and the
    events so far. *)
Record LoopState := {
  i : nat;
  calls : nat;
  allResults : list EmailResult;
  trace : list Event
}.

Definition initialLoopState : LoopState :=
  {| i := 0; calls := 0; allResults := []; trace := [] |}.

Section ProcessBatch.
Variable provider : nat -> list Payload -> ProviderReply.
Variable recipients : list EmailRecord.
Variables subject htmlContent textContent fromEmail : string.
Variable fromName : option string.

(** The callback of [chunk.map]. *)
Definition personalize (recipient : EmailRecord) : Email :=
  {| to := email recipient;
     subjectLine := EmailHelpers.replaceVariables subject (asData recipient);
     html := EmailHelpers.replaceVariables htmlContent (asData recipient);
     text := Some (EmailHelpers.replaceVariables textContent (asData recipient)) |}.

(** One iteration of the loop, the increment included. *)
Definition loopBody (st : LoopState) : LoopState :=
  let chunk := slice (i st) (i st + BATCH_SIZE) recipients in
  let emails := map personalize chunk in
  let sent := sendEmailBatch (provider (calls st)) emails fromEmail fromName in
  let pause := if decide (i st + BATCH_SIZE < length recipients)
               then [EvDelay 1000] else [] in
  {| i := i st + BATCH_SIZE;
     calls := S (calls st);
     allResults := allResults st ++ sent.2;
     trace := trace st ++ sent.1 ++ pause |}.

(** [for (let i = 0; i < recipients.length; i += BATCH_SIZE) { ... }] *)
Equations? loop (st : LoopState) : LoopState
  by wf (length recipients - i st) lt :=
  loop st with decide (i st < length recipients) => {
    | left _ := loop (loopBody st);
    | right _ := st }.
Proof. unfold BATCH_SIZE. lia. Qed.

(** The record written when the loop has ended. *)
Definition completedBatch (batch : Batch) (all : list EmailResult) : Batch :=
  {| results := all;
     status := completed;
     totalSent := countStatus success all;
     totalFailed := countStatus failed all;
     createdAt := createdAt batch |}.

(** The task between two suspension points. [Running batch st]: [batch]
    is what [batchResults.get] returned when the task started, [st] the
    loop state. *)
Inductive Task :=
| Running (batch : Batch) (st : LoopState)
| Finished.

Definition startTask (batchId : string) (store : Store) : Task :=
  match store !! batchId with
  | Some batch => Running batch initialLoopState
  | None => Finished
  end.

(** From one suspension point to the next: one iteration of the loop (the
    store is not touched), or, the loop being over, the write of the
    completed record. *)
Definition stepTask (batchId : string) (c : Store * Task) : Store * Task :=
  match c.2 with
  | Running batch st =>
      if decide (i st < length recipients)
      then (c.1, Running batch (loopBody st))
      else (<[batchId := completedBatch batch (allResults st)]> c.1, Finished)
  | Finished => c
  end.

(** The [try] block run without interleaving. With arguments of the
    declared types none of its statements throws: what the provider call
    throws is caught inside [sendEmailBatch]. The [catch] block is modelled
    on its own, after the section. *)
Definition processBatchAsync (batchId : string) (store : Store) : Store :=
  match store !! batchId with
  | None => store
  | Some batch =>
      <[batchId := completedBatch batch (allResults (loop initialLoopState))]> store
  end.

(** The events of a whole run. *)
Definition processBatchTrace : list Event := trace (loop initialLoopState).

(** The messages of chunk number [k] (from 0) and what [sendEmailBatch]
    returns for them when it is the [k]-th provider call. *)
Definition chunkEmails (k : nat) : list Email :=
  map personalize (slice (k * BATCH_SIZE) (k * BATCH_SIZE + BATCH_SIZE) recipients).

Definition chunkResults (k : nat) : list EmailResult :=
  (sendEmailBatch (provider k) (chunkEmails k) fromEmail fromName).2.

(** The payload of the provider call of the iteration that starts at index
    [k]. *)
Definition chunkPayloads (k : nat) : list Payload :=
  emailPayloads (map personalize (slice k (k + BATCH_SIZE) recipients)) fromEmail fromName.

(** The configuration (store, task) after [k] steps of the task. *)
Definition afterSteps (batchId : string) (store : Store) (k : nat) : Store * Task :=
  Nat.iter k (stepTask batchId) (store, startTask batchId store).

End ProcessBatch.

(** The [catch] block of [processBatchAsync]. *)
Definition processBatchAsync_catch (batchId : string) (store : Store) : Store :=
  match store !! batchId with
  | Some batch =>
      <[batchId := {| results := results batch;
                      status := batchFailed;
                      totalSent := totalSent batch;
                      totalFailed := totalFailed batch;
                      createdAt := createdAt batch |}]> store
  | None => store
  end.

(** ** getBatchResults, cleanupOldBatches *)

Definition getBatchResults (batchId : string) (store : Store) : option Batch :=
  match store !! batchId with
  | None => None
  | Some batch =>
      Some {| results := results batch;
              status := status batch;
              totalSent := totalSent batch;
              totalFailed := totalFailed batch;
              createdAt := createdAt batch |}
  end.

Definition cutoff : Z := 24 * 60 * 60 * 1000.

Definition cleanupOldBatches (now : Z) (store : Store) : Store :=
  filter (fun kv => ¬ (now - createdAt kv.2 > cutoff)%Z) store.

(** ** handler *)

Inductive Method := GET | POST | OtherMethod.

Global Instance Method_eq_dec : EqDecision Method.
Proof. solve_decision. Defined.

(** [req.body] after destructuring: a field is [None] when it is missing
    ([recipients] also when it is not an array). *)
Record SendEmailRequest := {
  req_recipients : option (list EmailRecord);
  req_subject : option string;
  req_htmlContent : option string;
  req_textContent : option string;
  req_fromName : option string
}.

Record Env := {
  FROM_EMAIL : option string;
  NEXT_PUBLIC_FROM_EMAIL : option string
}.

Record SendResponse := {
  res_code : nat;
  res_success : bool;
  res_message : string;
  res_batchId : option string
}.

(** The call [processBatchAsync(...)] that is started and not awaited. *)
Record Launched := {
  l_batchId : string;
  l_recipients : list EmailRecord;
  l_subject : string;
  l_htmlContent : string;
  l_textContent : string;
  l_fromEmail : string;
  l_fromName : option string
}.

Definition optTruthy (o : option string) : bool :=
  match o with Some s => jsTruthy s | None => false end.

(** [a || b] on optional strings. *)
Definition orElse (a b : option string) : option string :=
  if optTruthy a then a else b.

Definition includesAt (s : string) : bool :=
  bool_decide ("@"%char ∈ chars s).

Definition reject (msg : string) : SendResponse :=
  {| res_code := 400; res_success := false; res_message := msg; res_batchId := None |}.

(** [now] is [Date.now()] (and the time of [new Date()]), [rnd] is
    [Math.random().toString(36).substr(2, 9)]. *)
Definition handler (method : Method) (body : SendEmailRequest) (env : Env)
    (now : Z) (rnd : string) (store : Store)
    : SendResponse * Store * option Launched :=
  if decide (method ≠ POST) then
    ({| res_code := 405; res_success := false;
        res_message := "Method not allowed"; res_batchId := None |}, store, None)
  else
    let fromEmail := orElse (FROM_EMAIL env) (NEXT_PUBLIC_FROM_EMAIL env) in
    let completeFromEmail :=
      match fromEmail with
      | Some f => if includesAt f then f else "noreply@" +:+ f
      | None => "noreply@undefined"
      end in
    match req_recipients body with
    | None | Some [] =>
        (reject "Recipients array is required and cannot be empty", store, None)
    | Some recipients =>
        if negb (optTruthy (req_subject body)) || negb (optTruthy (req_htmlContent body))
        then (reject "Subject and HTML content are required", store, None)
        else if negb (optTruthy fromEmail)
        then (reject "FROM_EMAIL environment variable is required", store, None)
        else if decide (1000 < length recipients)
        then (reject "Maximum 1000 recipients allowed per batch", store, None)
        else
          let batchId := "batch_" +:+ pretty now +:+ "_" +:+ rnd in
          let store' := <[batchId := {| results := [];
                                        status := processing;
                                        totalSent := 0%Z;
                                        totalFailed := 0%Z;
                                        createdAt := now |}]> store in
          ({| res_code := 200; res_success := true;
              res_message := "Email batch initiated with "
                             +:+ pretty (length recipients) +:+ " recipients";
              res_batchId := Some batchId |},
           store',
           Some {| l_batchId := batchId;
                   l_recipients := recipients;
                   l_subject := default "" (req_subject body);
                   l_htmlContent := default "" (req_htmlContent body);
                   l_textContent := default "" (req_textContent body);
                   l_fromEmail := completeFromEmail;
                   l_fromName := req_fromName body |})
    end.

End Send.

(** ** The status endpoint *)

Module Status.
Import Send.

(** [req.query.batchId]: missing, a string, or an array of strings. *)
Inductive QueryParam :=
| QMissing
| QString (s : string)
| QArray (l : list string).

(** [interface StatusResponse], with the HTTP status code. *)
Record StatusResponse := {
  st_code : nat;
  st_success : bool;
  st_batchId : option string;
  st_status : option BatchStatus;
  st_results : option (list EmailResult);
  st_totalSent : option Z;
  st_totalFailed : option Z;
  st_progress : option Z;
  st_message : string
}.

Definition failure (code : nat) (msg : string) : StatusResponse :=
  {| st_code := code; st_success := false; st_batchId := None;
     st_status := None; st_results := None; st_totalSent := None;
     st_totalFailed := None; st_progress := None; st_message := msg |}.

(** [Math.round]: the nearest integer, halves upwards. *)
Definition Math_round (q : Q) : Z := Qfloor (q + (1 # 2))%Q.

Definition statusName (s : BatchStatus) : string :=
  match s with
  | processing => "processing"
  | completed => "completed"
  | batchFailed => "failed"
  end.

(** [Math.round((completedRecords / totalRecords) * 100)], computed on
    rationals. The endpoint only ever calls it with two equal counts (see
    [completedRecords_all] below), where the double-precision computation
    [1 * 100] is exact as well. *)
Definition percent (completedRecords totalRecords : nat) : Z :=
  Math_round ((inject_Z (Z.of_nat completedRecords)
               / inject_Z (Z.of_nat totalRecords)) * inject_Z 100)%Q.

Definition handler (method : Method) (batchId : QueryParam) (store : Store)
    : StatusResponse :=
  if decide (method = GET) then
    match batchId with
    | QString id =>
        if jsTruthy id then
          match getBatchResults id store with
          | None => failure 404 "Batch not found or expired"
          | Some batch =>
              let totalRecords := length (results batch) in
              let completedRecords :=
                length (filter (fun r => re_status r = success ∨ re_status r = failed)
                               (results batch)) in
              let progress :=
                if decide (0 < totalRecords)
                then percent completedRecords totalRecords else 0%Z in
              {| st_code := 200;
                 st_success := true;
                 st_batchId := Some id;
                 st_status := Some (status batch);
                 st_results := Some (results batch);
                 st_totalSent := Some (totalSent batch);
                 st_totalFailed := Some (totalFailed batch);
                 st_progress := Some progress;
                 st_message := "Batch " +:+ statusName (status batch) +:+ ". "
                               +:+ pretty (totalSent batch) +:+ " sent, "
                               +:+ pretty (totalFailed batch) +:+ " failed." |}
          end
        else failure 400 "Batch ID is required"
    | _ => failure 400 "Batch ID is required"
    end
  else failure 405 "Method not allowed".

End Status.

(** ** The store while the server runs *)

Module System.
Import Send.

(** One transition of the [batchResults] map: a request to the send
    endpoint, a background task (of any batch, in any state of its loop)
    moving to its next suspension point, the [catch] block of a task, or
    the periodic cleanup. *)
Inductive step : Store -> Store -> Prop :=
| step_submit method body env now rnd store :
    step store (handler method body env now rnd store).1.2
| step_task provider recipients subject htmlContent textContent fromEmail
    fromName batchId task store :
    step store
      (stepTask provider recipients subject htmlContent textContent
         fromEmail fromName batchId (store, task)).1
| step_catch batchId store :
    step store (processBatchAsync_catch batchId store)
| step_cleanup now store :
    step store (cleanupOldBatches now store).

(** The map is empty when the module is loaded. *)
Inductive reachable : Store -> Prop :=
| reach_init : reachable ∅
| reach_step store store' :
    reachable store -> step store store' -> reachable store'.

(** [totalSent + totalFailed == results.length], both counts not negative. *)
Definition countsAgree (b : Batch) : Prop :=
  (totalSent b + totalFailed b = Z.of_nat (length (results b))
   ∧ 0 ≤ totalSent b ∧ 0 ≤ totalFailed b)%Z.

End System.

(** ** The status endpoint that reads the global map *)

Module StatusGlobal.
Import Send Status.

(** [const batchResults = globalThis.batchResults ?? new Map()]: the map
    found on [globalThis] when the module is loaded, or a fresh empty one. *)
Definition batchResults (global : option Store) : Store := default ∅ global.

Definition handler (global : option Store) (method : Method) (batchId : QueryParam)
    : StatusResponse :=
  if decide (method = GET) then
    match batchId with
    | QString id =>
        if jsTruthy id then
          match batchResults global !! id with
          | None => failure 404 "Batch not found or expired"
          | Some batch =>
              let totalRecords := length (results batch) in
              let completedRecords :=
                length (filter (fun r => re_status r = success ∨ re_status r = failed)
                               (results batch)) in
              let progress :=
                if decide (0 < totalRecords)
                then percent completedRecords totalRecords else 0%Z in
              {| st_code := 200;
                 st_success := true;
                 st_batchId := Some id;
                 st_status := Some (status batch);
                 st_results := Some (results batch);
                 st_totalSent := Some (totalSent batch);
                 st_totalFailed := Some (totalFailed batch);
                 st_progress := Some progress;
                 st_message := "Batch " +:+ statusName (status batch) +:+ ". "
                               +:+ pretty (totalSent batch) +:+ " sent, "
                               +:+ pretty (totalFailed batch) +:+ " failed." |}
          end
        else failure 400 "Batch ID is required"
    | _ => failure 400 "Batch ID is required"
    end
  else failure 405 "Method not allowed".

End StatusGlobal.

(** ** The shared batch storage module *)

Module BatchStore.
Import Send.


Definition setBatchResults (batchId : string) (data : Batch) (store : Store) : Store :=
  <[batchId := data]> store.

Definition getBatchResults (batchId : string) (store : Store) : option Batch :=
  match store !! batchId with
  | None => None
  | Some batch =>
      Some {| results := results batch;
              status := status batch;
              totalSent := totalSent batch;
              totalFailed := totalFailed batch;
              createdAt := createdAt batch |}
  end.



Definition cleanupOldBatches (now : Z) (store : Store) : Store :=
  filter (fun kv => ¬ (now - createdAt kv.2 > 24 * 60 * 60 * 1000)%Z) store.


End BatchStore.

(** ** utils/emailHelpers.ts: validation and template inspection *)

Module TemplateTools.
Import Js EmailHelpers.

(** A character matched by [[^\s@]]. *)
Definition isAddressChar (c : ascii) : bool :=
  negb (isWhiteSpace c) && negb (bool_decide (c = "@"%char)).

(** The longest prefix matched by [[^\s@]*], and what follows. *)
Fixpoint spanAddress (l : list ascii) : list ascii * list ascii :=
  match l with
  | c :: l' =>
      if isAddressChar c then let '(a, r) := spanAddress l' in (c :: a, r)
      else ([], l)
  | [] => ([], [])
  end.

(** Some character before the last one is a dot. *)
Fixpoint dotBeforeLast (l : list ascii) : bool :=
  match l with
  | c :: l' =>
      match l' with
      | [] => false
      | _ :: _ => bool_decide (c = "."%char) || dotBeforeLast l'
      end
  | [] => false
  end.

(** [/^[^\s@]+@[^\s@]+\.[^\s@]+$/.test(l)]. The first group cannot stop
    before the first [@] or white space; what follows the [@] must consist of
    address characters up to the end, with a dot that is neither its first
    nor its last character. *)
Definition emailRegexTest (l : list ascii) : bool :=
  match spanAddress l with
  | (_ :: _, c :: rest) =>
      bool_decide (c = "@"%char)
      && forallb isAddressChar rest
      && match rest with _ :: tl => dotBeforeLast tl | [] => false end
  | _ => false
  end.

(** [if (!email || typeof email !== 'string') return false]: the argument is
    a string, so only the empty one is refused here. *)
Definition validateEmail (email : string) : bool :=
  match email with
  | EmptyString => false
  | _ => emailRegexTest (trim (chars email))
  end.

(** [l.match(/\{\{([^}]+)\}\}/g)]: the matched texts, left to right; the
    empty list stands for [null]. *)
Equations? matchAll (l : list ascii) : list (list ascii) by wf (length l) lt :=
  matchAll [] := [];
  matchAll (c :: l') with inspect (matchToken (c :: l')) => {
    | exist _ (Some (body, rest)) _ := token body :: matchAll rest;
    | exist _ None _ := matchAll l' }.
Proof.
  assert (Hspan : forall l b r, spanBody l = (b, r) -> length l = length b + length r).
  { induction l as [|a l IH]; intros b r; simpl.
    - intros [= <- <-]; reflexivity.
    - destruct (decide (a = closeBrace)).
      + intros [= <- <-]; reflexivity.
      + destruct (spanBody l) as [b' r'] eqn:E.
        intros [= <- <-]. simpl. rewrite (IH b' r' eq_refl). reflexivity. }
  change (matchToken (c :: l') = Some (body, rest)) in e.
  unfold matchToken in e.
  destruct l' as [|c2 l2]; try discriminate.
  destruct (decide (c = openBrace)); try discriminate.
  destruct (decide (c2 = openBrace)); try discriminate.
  destruct (spanBody l2) as [b r] eqn:E.
  destruct b as [|b0 b]; try discriminate.
  destruct r as [|d1 [|d2 r]]; try discriminate.
  destruct (decide (d1 = closeBrace)); try discriminate.
  destruct (decide (d2 = closeBrace)); try discriminate.
  injection e as <- <-. apply Hspan in E. simpl in *. lia.
Qed.

(** [m.replace(/\{\{|\}\}/g, '')] *)
Fixpoint stripBraces (l : list ascii) : list ascii :=
  match l with
  | c1 :: l' =>
      match l' with
      | c2 :: l'' =>
          if bool_decide (c1 = openBrace ∧ c2 = openBrace)
             || bool_decide (c1 = closeBrace ∧ c2 = closeBrace)
          then stripBraces l''
          else c1 :: stripBraces l'
      | [] => [c1]
      end
  | [] => []
  end.

(** [self.indexOf(value)] *)
Fixpoint indexOf (value : string) (self : list string) : option nat :=
  match self with
  | [] => None
  | x :: self' => if decide (x = value) then Some 0 else S <$> indexOf value self'
  end.

(** [l.filter((value, index, self) => self.indexOf(value) === index)] *)
Definition firstOccurrences (l : list string) : list string :=
  (filter (fun iv => indexOf iv.2 l = Some iv.1) (imap pair l)).*2.

(** The callback of [matches.map]. *)
Definition variableOf (m : list ascii) : string :=
  text (default [] (map trim (split pipe (stripBraces m)) !! 0)).

Definition extractVariables (template : string) : list string :=
  match template with
  | EmptyString => []
  | _ => firstOccurrences (map variableOf (matchAll (chars template)))
  end.

(** [s.includes(sub)] *)
Fixpoint startsWith (sub l : list ascii) : bool :=
  match sub, l with
  | [], _ => true
  | c :: sub', d :: l' => bool_decide (c = d) && startsWith sub' l'
  | _ :: _, [] => false
  end.

Fixpoint includes (sub l : list ascii) : bool :=
  startsWith sub l || match l with [] => false | _ :: l' => includes sub l' end.

Record TemplateCheck := {
  isValid : bool;
  missingVariables : list string;
  warnings : list string
}.

Definition emailWarning : string := "Using {{email}} variable but no email column found".
Definition noVariablesWarning : string :=
  "No variables found in template - emails will be identical".

Definition validateTemplate (template : string) (availableColumns : list string)
    : TemplateCheck :=
  let variables := extractVariables template in
  let missing := filter (fun v => v ∉ availableColumns) variables in
  let w1 := if includes (chars "{{email}}") (chars template)
               && negb (bool_decide ("email" ∈ availableColumns))
            then [emailWarning] else [] in
  let w2 := if bool_decide (length variables = 0) then [noVariablesWarning] else [] in
  {| isValid := bool_decide (length missing = 0);
     missingVariables := missing;
     warnings := w1 ++ w2 |}.

(** [{ ...fallbackData, ...sampleData }] then [replaceVariables]. *)
Definition previewTemplate (template : string) (sampleData : EmailRecord)
    (fallbackData : gmap string string) : string :=
  let mergedData := sampleData ∪ (JString <$> fallbackData) in
  replaceVariables template mergedData.

End TemplateTools.

(** ** The upload endpoint: address validation and column lookup *)

Module Upload.
Import Js.

Definition validateEmail (email : string) : bool :=
  TemplateTools.emailRegexTest (trim (chars email)).

Definition emailColumns : list string :=
  ["email"; "Email"; "EMAIL"; "e-mail"; "E-mail"; "mail"].

(** [headers.find(header => emailColumns.includes(header)) || null] *)
Definition findEmailColumn (headers : list string) : option string :=
  match list_find (fun header => header ∈ emailColumns) headers with
  | Some (_, header) => if Send.jsTruthy header then Some header else None
  | None => None
  end.

End Upload.

(** ** utils/fileParser.ts *)

Module FileParser.
Import Js.

(** A value of a parsed record: the text of a cell, or a number (the
    [_rowIndex] the parser adds). *)
Inductive Cell :=
| CellText (s : string)
| CellNumber (n : nat).

Global Instance Cell_eq_dec : EqDecision Cell.
Proof. solve_decision. Defined.

Abbreviation Row := (gmap string Cell).

Record ParsedData := {
  data : list Row;
  headers : list string;
  errors : list string
}.

Definition comma : ascii := ","%char.
Definition newline : ascii := ascii_of_nat 10.

(** The [for] loop of [parseCSVLine], over what is left of the line:
    [result], [current] and [inQuotes] are its variables. When a doubled
    quote is met inside quotes, the index is advanced past both. *)
Fixpoint parseCSVLoop (line : list ascii) (result : list (list ascii))
    (current : list ascii) (inQuotes : bool) : list (list ascii) :=
  match line with
  | [] => result ++ [trim current]
  | char :: line' =>
      if decide (char = doubleQuote) then
        match line' with
        | nextChar :: line'' =>
            if inQuotes && bool_decide (nextChar = doubleQuote)
            then parseCSVLoop line'' result (current ++ [doubleQuote]) inQuotes
            else parseCSVLoop line' result current (negb inQuotes)
        | [] => parseCSVLoop line' result current (negb inQuotes)
        end
      else if bool_decide (char = comma) && negb inQuotes
      then parseCSVLoop line' (result ++ [trim current]) [] inQuotes
      else parseCSVLoop line' result (current ++ [char]) inQuotes
  end.

Definition parseCSVLine (line : list ascii) : list (list ascii) :=
  parseCSVLoop line [] [] false.

(** [headers.forEach((header, columnIndex) =>
      record[header] = values[columnIndex] || '')] on an empty record. *)
Definition fillRecord (headers values : list string) : Row :=
  foldl (fun record ih => <[ih.2 := CellText (default "" (values !! ih.1))]> record)
        ∅ (imap pair headers).

(** The callback of [dataLines.map]. *)
Definition recordOf (headers : list string) (index : nat) (line : list ascii) : Row :=
  <["_rowIndex" := CellNumber (index + 2)]>
    (fillRecord headers (map text (parseCSVLine line))).

(** [Object.values(record).some(value => value !== '')] *)
Definition someValue (record : Row) : bool :=
  bool_decide (map_Exists (fun _ v => v ≠ CellText "") record).

(** [content.split('\n').map(line => line.trim()).filter(line => line.length > 0)] *)
Definition contentLines (content : string) : list (list ascii) :=
  filter (fun line => 0 < length line) (map trim (split newline (chars content))).

Definition parseCsvContent (content : string) : ParsedData :=
  match contentLines content with
  | [] => {| data := []; headers := []; errors := ["Empty CSV file"] |}
  | first :: dataLines =>
      let headers := map text (parseCSVLine first) in
      let data := imap (recordOf headers) dataLines in
      {| data := filter (fun record => someValue record = true) data;
         headers := headers;
         errors := [] |}
  end.

(** What [XLSX.read] and [sheet_to_json(worksheet, { header: 1 })] give for
    the buffer: an exception, a workbook without sheets, a first sheet
    without rows, or the header row (strings, as the cast says) and the
    other rows. *)
Inductive Workbook :=
| ReadThrows (e : Send.Thrown)
| NoSheet
| EmptySheet
| SheetRows (headers : list string) (rows : list (list Cell)).

(** [row[columnIndex] || ''] *)
Definition cellOrEmpty (cell : option Cell) : Cell :=
  match cell with
  | Some (CellText (String c s)) => CellText (String c s)
  | Some (CellNumber (S n)) => CellNumber (S n)
  | _ => CellText ""
  end.

(** The callback of [rows.map] in [parseExcelFile]. *)
Definition excelRecordOf (headers : list string) (index : nat) (row : list Cell) : Row :=
  <["_rowIndex" := CellNumber (index + 2)]>
    (foldl (fun record ih => <[ih.2 := cellOrEmpty (row !! ih.1)]> record)
           ∅ (imap pair headers)).

Definition parseExcelFile (workbook : Workbook) : ParsedData :=
  match workbook with
  | ReadThrows e =>
      {| data := []; headers := [];
         errors := ["Failed to parse Excel file: " +:+ Send.thrownText e] |}
  | NoSheet =>
      {| data := []; headers := []; errors := ["No sheets found in the Excel file"] |}
  | EmptySheet => {| data := []; headers := []; errors := ["Empty Excel file"] |}
  | SheetRows headers rows =>
      let data := imap (excelRecordOf headers) rows in
      {| data := filter (fun record => someValue record = true) data;
         headers := headers;
         errors := [] |}
  end.

(** [s.toLowerCase()] on code units below 256. *)
Definition toLowerChar (c : ascii) : ascii :=
  let n := nat_of_ascii c in
  if (Nat.leb 65 n && Nat.leb n 90)
     || (Nat.leb 192 n && Nat.leb n 222 && negb (Nat.eqb n 215))
  then ascii_of_nat (n + 32) else c.

Definition toLowerCase (l : list ascii) : list ascii := map toLowerChar l.

Definition emailPatterns : list string :=
  ["email"; "Email"; "EMAIL";
   "e-mail"; "E-mail"; "E-Mail";
   "mail"; "Mail"; "MAIL";
   "emailaddress"; "email_address";
   "contact"; "Contact"].

(** The first loop of [findEmailColumn]: for each pattern in turn,
    [headers.find(header => header === pattern)], returned if truthy. *)
Fixpoint findExact (patterns headers : list string) : option string :=
  match patterns with
  | [] => None
  | pattern :: patterns' =>
      match list_find (fun header => header = pattern) headers with
      | Some (_, found) =>
          if Send.jsTruthy found then Some found else findExact patterns' headers
      | None => findExact patterns' headers
      end
  end.

Definition mentionsMail (header : string) : bool :=
  let lowerHeader := toLowerCase (chars header) in
  TemplateTools.includes (chars "email") lowerHeader
  || TemplateTools.includes (chars "mail") lowerHeader.

Definition findEmailColumn (headers : list string) : option string :=
  match findExact emailPatterns headers with
  | Some found => Some found
  | None =>
      match list_find (fun header => mentionsMail header = true) headers with
      | Some (_, header) => Some header
      | None => None
      end
  end.

Record Validation := {
  isValid : bool;
  v_errors : list string;
  v_warnings : list string;
  emailColumn : option string;
  validRecords : nat;
  invalidRecords : nat
}.

(** [record._rowIndex || index + 2] inside a template string. *)
Definition rowLabel (record : Row) (index : nat) : string :=
  match record !! "_rowIndex" with
  | Some (CellNumber (S n)) => pretty (S n)
  | Some (CellText (String c s)) => String c s
  | _ => pretty (index + 2)
  end.

(** The counters and warnings of the [data.forEach] loop. *)
Record Tally := {
  t_valid : nat;
  t_invalid : nat;
  t_warnings : list string
}.

(** The callback of [data.forEach] in [validateParsedData]. *)
Definition tallyRecord (emailColumn : string) (t : Tally) (ir : nat * Row) : Tally :=
  match ir.2 !! emailColumn with
  | Some (CellText (String c s)) =>
      if TemplateTools.emailRegexTest (trim (chars (String c s)))
      then {| t_valid := S (t_valid t); t_invalid := t_invalid t;
              t_warnings := t_warnings t |}
      else {| t_valid := t_valid t; t_invalid := S (t_invalid t);
              t_warnings := t_warnings t
                ++ ["Row " +:+ rowLabel ir.2 ir.1 +:+ ": Invalid email format - "
                    +:+ String c s] |}
  | _ =>
      {| t_valid := t_valid t; t_invalid := S (t_invalid t);
         t_warnings := t_warnings t
           ++ ["Row " +:+ rowLabel ir.2 ir.1 +:+ ": Missing email address"] |}
  end.

Definition noColumnError : string :=
  "No email column found. Please ensure your file has a column named "
  +:+ quoted "email" +:+ ", " +:+ quoted "Email" +:+ ", or similar.".

Definition validateParsedData (data : list Row) (headers : list string) : Validation :=
  match data with
  | [] =>
      {| isValid := false; v_errors := ["No data found in file"]; v_warnings := [];
         emailColumn := None; validRecords := 0; invalidRecords := 0 |}
  | _ =>
      let emailColumn := findEmailColumn headers in
      let errors := match emailColumn with
                    | Some c => if Send.jsTruthy c then [] else [noColumnError]
                    | None => [noColumnError]
                    end in
      let t := match emailColumn with
               | Some c =>
                   if Send.jsTruthy c
                   then foldl (tallyRecord c)
                              {| t_valid := 0; t_invalid := 0; t_warnings := [] |}
                              (imap pair data)
                   else {| t_valid := 0; t_invalid := 0; t_warnings := [] |}
               | None => {| t_valid := 0; t_invalid := 0; t_warnings := [] |}
               end in
      let large := if decide (1000 < length data)
                   then ["Large dataset detected (" +:+ pretty (length data)
                         +:+ " records). Only first 1000 will be processed."]
                   else [] in
      {| isValid := bool_decide (length errors = 0) && bool_decide (0 < t_valid t);
         v_errors := errors;
         v_warnings := t_warnings t ++ large;
         emailColumn := emailColumn;
         validRecords := t_valid t;
         invalidRecords := t_invalid t |}
  end.

End FileParser.

(** ** utils/auth.ts *)

Module Auth.
Import Js.

(** The payload of a verified token, and [req.user]: a field is [None]
    when the payload has no such key. *)
Record User := {
  username : option string;
  role : option string
}.

(** What a request ends in: a response sent by [authenticateToken] itself,
    or the run of [next] with [req.user] set. *)
Inductive Outcome (R : Type) :=
| Refused (code : nat) (message : string)
| Passed (user : User) (r : R).
Arguments Refused {R} code message.
Arguments Passed {R} user r.

Definition space : ascii := " "%char.

(** [authHeader && authHeader.split(' ')[1]]: [None] stands for
    [undefined]; an empty header is its own (falsy) value. *)
Definition bearerToken (authHeader : option string) : option string :=
  match authHeader with
  | Some h =>
      if Send.jsTruthy h then text <$> (split space (chars h) !! 1) else Some h
  | None => None
  end.

Section Authenticate.
(** [jwt.verify(token, secret, callback)]: the payload handed to the
    callback, or [None] when the callback gets an error. *)
Variable verify : string -> string -> option User.
(** [process.env.NEXTAUTH_SECRET] *)
Variable NEXTAUTH_SECRET : option string.

Definition authenticateToken {R : Type} (authorization : option string)
    (next : User -> R) : Outcome R :=
  let token := bearerToken authorization in
  if negb (Send.optTruthy token) then Refused 401 "Access token required"
  else
    let jwtSecret := NEXTAUTH_SECRET in
    if negb (Send.optTruthy jwtSecret) then Refused 500 "Server configuration error"
    else
      match verify (default "" token) (default "" jwtSecret) with
      | None => Refused 403 "Invalid or expired token"
      | Some decoded =>
          let user := {| username := username decoded; role := role decoded |} in
          Passed user (next user)
      end.

(** [withAuth(handler)]: the handler is the [next] of [authenticateToken]. *)
Definition withAuth {R : Type} (handler : User -> R) (authorization : option string)
    : Outcome R :=
  authenticateToken authorization (fun user => handler user).

End Authenticate.

End Auth.

(** ** utils/emailHelpers.ts: plain text from HTML *)

Module PlainText.
Import Js.

Definition tagOpen : ascii := "<"%char.
Definition tagClose : ascii := ">"%char.
Definition ampersand : ascii := "&"%char.
Definition blank : ascii := " "%char.

(** [l.replace(/<[^>]*>/g, '')]: a [<] starts a match when some [>] follows
    it, and the match ends at the first one; [inTag] says that the scan is
    inside a match. *)
Fixpoint stripTags (inTag : bool) (l : list ascii) : list ascii :=
  match l with
  | [] => []
  | c :: l' =>
      if inTag then stripTags (negb (bool_decide (c = tagClose))) l'
      else if bool_decide (c = tagOpen) && bool_decide (tagClose ∈ l')
      then stripTags true l'
      else c :: stripTags false l'
  end.

(** [l.replace(/pattern/g, replacement)] for a literal, non-empty pattern:
    [skip] counts the characters of the current match still to pass. *)
Fixpoint replaceLiteral (pattern replacement : list ascii) (skip : nat)
    (l : list ascii) : list ascii :=
  match l with
  | [] => []
  | c :: l' =>
      match skip with
      | S k => replaceLiteral pattern replacement k l'
      | 0 =>
          if TemplateTools.startsWith pattern l
          then replacement ++ replaceLiteral pattern replacement (length pattern - 1) l'
          else c :: replaceLiteral pattern replacement 0 l'
      end
  end.

(** The six entity replacements, in the order of the source. *)
Definition decodeEntities (l : list ascii) : list ascii :=
  let l1 := replaceLiteral (chars "&nbsp;") [blank] 0 l in
  let l2 := replaceLiteral (chars "&amp;") [ampersand] 0 l1 in
  let l3 := replaceLiteral (chars "&lt;") [tagOpen] 0 l2 in
  let l4 := replaceLiteral (chars "&gt;") [tagClose] 0 l3 in
  let l5 := replaceLiteral (chars "&quot;") [doubleQuote] 0 l4 in
  replaceLiteral (chars "&#39;") ["'"%char] 0 l5.

(** [l.replace(/\s+/g, ' ')]: [inRun] says that the previous character was
    white space. *)
Fixpoint collapseSpaces (inRun : bool) (l : list ascii) : list ascii :=
  match l with
  | [] => []
  | c :: l' =>
      if isWhiteSpace c
      then if inRun then collapseSpaces true l' else blank :: collapseSpaces true l'
      else c :: collapseSpaces false l'
  end.

Definition htmlToPlainText (html : string) : string :=
  match html with
  | EmptyString => ""
  | _ => text (trim (collapseSpaces false (decodeEntities (stripTags false (chars html)))))
  end.

End PlainText.

(** ** pages/api/upload/process.ts: the file processors and the handler *)

Module UploadHandler.
Import Js.

(** A record of the uploaded file: the cells are strings, as the declared
    types say. *)
Abbreviation EmailRecord := (gmap string string).

(** [record.email && record.email.trim() !== ''] *)
Definition hasAddress (record : EmailRecord) : bool :=
  match record !! "email" with
  | Some e => Send.jsTruthy e && negb (bool_decide (trim (chars e) = []))
  | None => false
  end.

Definition noColumnMessage : string :=
  "No email column found. Please ensure your file has a column named "
  +:+ quoted "email" +:+ ", " +:+ quoted "Email" +:+ ", or similar.".

(** What a processor's promise settles to. *)
Inductive Outcome :=
| Rejected (e : Send.Thrown)
| Processed (data : list EmailRecord) (headers : list string).

(** The callback of [jsonData.slice(1).map]: the record starts as
    [{ email: '' }]. *)
Definition excelRecord (headers row : list string) : EmailRecord :=
  foldl (fun record ih => <[ih.2 := default "" (row !! ih.1)]> record)
        {["email" := ""]} (imap pair headers).

(** [jsonData] is what [XLSX.utils.sheet_to_json(worksheet, { header: 1 })]
    returned for the first sheet. *)
Definition processExcelFile (jsonData : list (list string)) : Outcome :=
  match jsonData with
  | [] => Rejected (Send.ErrorObject "Empty file")
  | headers :: rows =>
      match Upload.findEmailColumn headers with
      | None => Rejected (Send.ErrorObject noColumnMessage)
      | Some _ =>
          Processed (filter (fun record => hasAddress record = true)
                            (map (excelRecord headers) rows))
                    headers
      end
  end.

(** The events of the stream [createReadStream(filePath).pipe(csv())]. *)
Inductive StreamEvent :=
| OnHeaders (csvHeaders : list string)
| OnData (row : EmailRecord)
| OnEnd
| OnError (error : Send.Thrown).

(** The variables the callbacks of [processCsvFile] share, and what the
    promise has settled to, if it has. *)
Record CsvState := {
  cs_data : list EmailRecord;
  cs_headers : list string;
  headersParsed : bool;
  settled : option Outcome
}.

Definition csvStart : CsvState :=
  {| cs_data := []; cs_headers := []; headersParsed := false; settled := None |}.

(** [resolve] and [reject] act on the first call only. *)
Definition settle (o : Outcome) (st : CsvState) : CsvState :=
  match settled st with
  | Some _ => st
  | None => {| cs_data := cs_data st; cs_headers := cs_headers st;
               headersParsed := headersParsed st; settled := Some o |}
  end.

(** The four callbacks. The stream emits no data after its end, so the
    array handed to [resolve] is read as it stands at that event. *)
Definition onEvent (st : CsvState) (ev : StreamEvent) : CsvState :=
  match ev with
  | OnHeaders csvHeaders =>
      let st' := {| cs_data := cs_data st; cs_headers := csvHeaders;
                    headersParsed := true; settled := settled st |} in
      match Upload.findEmailColumn csvHeaders with
      | None => settle (Rejected (Send.ErrorObject noColumnMessage)) st'
      | Some _ => st'
      end
  | OnData row =>
      if headersParsed st && hasAddress row
      then {| cs_data := cs_data st ++ [row]; cs_headers := cs_headers st;
              headersParsed := headersParsed st; settled := settled st |}
      else st
  | OnEnd => settle (Processed (cs_data st) (cs_headers st)) st
  | OnError error => settle (Rejected error) st
  end.

(** [None]: the promise is never settled. *)
Definition processCsvFile (events : list StreamEvent) : option Outcome :=
  settled (foldl onEvent csvStart events).

Record UploadedFile := {
  originalFilename : option string;
  filepath : string
}.

(** What [form.parse(req)] gives, after the choice of [files.file[0]] or
    [files.file]. *)
Inductive FormResult :=
| FormThrows (e : Send.Thrown)
| FormFile (file : option UploadedFile).

Inductive SheetResult :=
| SheetThrows (e : Send.Thrown)
| Sheet (jsonData : list (list string)).

Record ValidatedRecord := {
  v_record : EmailRecord;
  isValidEmail : bool
}.

Record ProcessResponse := {
  p_code : nat;
  p_success : bool;
  p_data : option (list ValidatedRecord);
  p_headers : option (list string);
  totalRecords : option nat;
  validEmails : option nat;
  invalidEmails : option nat;
  p_message : string
}.

Definition refuse (code : nat) (message : string) : ProcessResponse :=
  {| p_code := code; p_success := false; p_data := None; p_headers := None;
     totalRecords := None; validEmails := None; invalidEmails := None;
     p_message := message |}.

(** [file.originalFilename?.split('.').pop()?.toLowerCase()] *)
Definition fileExtension (file : UploadedFile) : option string :=
  match originalFilename file with
  | Some name =>
      Some (text (FileParser.toLowerCase
                    (default [] (last (split "."%char (chars name))))))
  | None => None
  end.

(** [error instanceof Error ? error.message : 'File processing failed'] *)
Definition failureText (e : Send.Thrown) : string :=
  match e with
  | Send.ErrorObject msg => msg
  | Send.NotAnError => "File processing failed"
  end.

(** The part of the handler after the processors: every record that
    reaches it has an [email] field. *)
Definition respond (data : list EmailRecord) (headers : list string) : ProcessResponse :=
  let validatedData :=
    map (fun record =>
           {| v_record := record;
              isValidEmail := Upload.validateEmail (default "" (record !! "email")) |})
        data in
  let validEmails :=
    length (filter (fun record => isValidEmail record = true) validatedData) in
  let invalidEmails := length validatedData - validEmails in
  let limitedData := take 1000 validatedData in
  {| p_code := 200; p_success := true;
     p_data := Some limitedData;
     p_headers := Some headers;
     totalRecords := Some (length data);
     validEmails := Some validEmails;
     invalidEmails := Some invalidEmails;
     p_message := "Successfully processed " +:+ pretty (length data) +:+ " records. "
                  +:+ pretty validEmails +:+ " valid emails, "
                  +:+ pretty invalidEmails +:+ " invalid emails." |}.

Section Handler.
(** The stream events and the sheet contents found for a file path. *)
Variable readCsv : string -> list StreamEvent.
Variable readSheet : string -> SheetResult.

(** [None]: the handler never answers, because the promise of
    [processCsvFile] is never settled. *)
Definition handler (method : Send.Method) (form : FormResult) : option ProcessResponse :=
  if decide (method ≠ Send.POST) then Some (refuse 405 "Method not allowed")
  else
    match form with
    | FormThrows e => Some (refuse 500 (failureText e))
    | FormFile None => Some (refuse 400 "No file uploaded")
    | FormFile (Some file) =>
        let extension := default "" (fileExtension file) in
        if negb (bool_decide (extension ∈ ["csv"; "xlsx"; "xls"]))
        then Some (refuse 400
               "Invalid file format. Please upload CSV, XLS, or XLSX files only.")
        else
          let processedData :=
            if decide (fileExtension file = Some "csv")
            then processCsvFile (readCsv (filepath file))
            else match readSheet (filepath file) with
                 | SheetThrows e => Some (Rejected e)
                 | Sheet jsonData => Some (processExcelFile jsonData)
                 end in
          match processedData with
          | None => None
          | Some (Rejected e) => Some (refuse 500 (failureText e))
          | Some (Processed data headers) => Some (respond data headers)
          end
    end.

End Handler.

End UploadHandler.

(** ** components/EmailComposer/MessageEditor.tsx: the preview of a template *)

Module Editor.
Import Js EmailHelpers.

(** The text shown for a variable without value and without fallback. *)
Definition missing (varName : list ascii) : list ascii :=
  chars "[Missing: " ++ varName ++ chars "]".

(** The replacer callback of the local [replaceVariables] of
    [generatePreview]. *)
Definition previewReplacer (sampleData : EmailRecord) (variable : list ascii)
    : list ascii :=
  let pieces := map trim (split pipe variable) in
  let varName := pieces !! 0 in
  let fallback := pieces !! 1 in
  let value := getProperty sampleData (text (default [] varName)) in
  match value with
  | Some (JString (String c s)) => chars (String c s)
  | Some (JOther rendering) => chars rendering
  | Some (JString EmptyString) | Some JNull | None =>
      match fallback with
      | Some f => if truthy f then stripQuotes f else missing (default [] varName)
      | None => missing (default [] varName)
      end
  end.

Definition replaceVariables (sampleData : EmailRecord) (text_ : string) : string :=
  text (replaceAll (previewReplacer sampleData) (chars text_)).

End Editor.

(** ** pages/api/auth/login.ts *)

Module Login.

Record LoginRequest := {
  req_username : option string;
  req_password : option string
}.

Record LoginEnv := {
  ADMIN_USERNAME : option string;
  ADMIN_PASSWORD : option string;
  NEXTAUTH_SECRET : option string
}.

(** The payload handed to [jwt.sign]; the options are the same on every
    call. *)
Record Claims := {
  c_username : string;
  c_role : string;
  iat : Z
}.

Record LoginResponse := {
  lr_code : nat;
  lr_success : bool;
  lr_token : option string;
  lr_message : string
}.

Definition refuse (code : nat) (message : string) : LoginResponse :=
  {| lr_code := code; lr_success := false; lr_token := None; lr_message := message |}.

Section Handler.
(** [jwt.sign(payload, secret, options)]: the token, or [None] when the
    call throws. *)
Variable sign : Claims -> string -> option string.

(** [now] is [Date.now()]. *)
Definition handler (method : Send.Method) (body : LoginRequest) (env : LoginEnv)
    (now : Z) : LoginResponse :=
  if decide (method ≠ Send.POST) then refuse 405 "Method not allowed"
  else
    match ADMIN_USERNAME env, ADMIN_PASSWORD env, NEXTAUTH_SECRET env with
    | Some adminUsername, Some adminPassword, Some jwtSecret =>
        if negb (Send.jsTruthy adminUsername) || negb (Send.jsTruthy adminPassword)
           || negb (Send.jsTruthy jwtSecret)
        then refuse 500 "Server configuration error"
        else if negb (bool_decide (req_username body = Some adminUsername))
                || negb (bool_decide (req_password body = Some adminPassword))
        then refuse 401 "Invalid credentials"
        else
          match sign {| c_username := adminUsername; c_role := "admin";
                        iat := (now / 1000)%Z |} jwtSecret with
          | Some token =>
              {| lr_code := 200; lr_success := true; lr_token := Some token;
                 lr_message := "Authentication successful" |}
          | None => refuse 500 "Internal server error"
          end
    | _, _, _ => refuse 500 "Server configuration error"
    end.

End Handler.

End Login.

(** * Specification-side definitions and sample data *)

Import EmailHelpers Send Status System.

Definition storeInvariant (store : Store) : Prop :=
  ∀ id b, store !! id = Some b → countsAgree b.

(** The submissions the endpoint must refuse, as the specification lists
    them. *)
Definition submissionRefused (body : SendEmailRequest) (env : Env) : Prop :=
  req_recipients body = None
  ∨ req_recipients body = Some []
  ∨ (∃ l, req_recipients body = Some l ∧ 1000 < length l)
  ∨ optTruthy (req_subject body) = false
  ∨ optTruthy (req_htmlContent body) = false
  ∨ (optTruthy (FROM_EMAIL env) = false
     ∧ optTruthy (NEXT_PUBLIC_FROM_EMAIL env) = false).

Definition createdBatch (now : Z) : Batch :=
  {| results := []; status := processing; totalSent := 0; totalFailed := 0;
     createdAt := now |}.

(** The progress figure as the specification writes it:
    [round(100 * (successCount + failureCount) / results.length)], and 0
    when there are no results. *)
Definition specProgress (b : Batch) : Z :=
  match results b with
  | [] => 0%Z
  | _ => Math_round (inject_Z 100 * inject_Z (totalSent b + totalFailed b)
                     / inject_Z (Z.of_nat (length (results b))))%Q
  end.

(** What the events produced by the loop from index [k] onwards look like:
    well paced, one call per remaining chunk, each of at most 100 payloads,
    addressed to the remaining recipients in order. *)
Definition tailOK (recipients : list EmailRecord) (k : nat) (T : list Event) : Prop :=
  wellPaced T = true
  ∧ length (sentPayloads T) = (length recipients - k + 99) / 100
  ∧ Forall (fun p => length p ≤ 100) (sentPayloads T)
  ∧ concat (map (map pl_to) (sentPayloads T))
    = map (fun r => [email r]) (drop k recipients)
  ∧ (k < length recipients → T ≠ [])
  ∧ (length recipients ≤ k → T = []).

(** A text that does not begin with a closing brace. *)
Definition noCloseAhead (Z : list ascii) : Prop := head Z ≠ Some closeBrace.

(** A substituted text that can neither be, nor form with the text around
    it, the syntax of a token: it is not empty, does not begin with a
    closing brace, does not end with an opening brace and has no two
    opening braces in a row. *)
Definition inert (v : list ascii) : Prop :=
  v ≠ []
  ∧ head v ≠ Some closeBrace
  ∧ last v ≠ Some openBrace
  ∧ ∀ a b, v ≠ a ++ openBrace :: openBrace :: b.

(** ** Sample data *)

Definition demoRecipients : list EmailRecord :=
  [ {| email := "ann@example.org"; fields := {["name" := JString "Ann"]} |};
    {| email := "bob@example.org"; fields := ∅ |} ].

Definition demoBody : SendEmailRequest :=
  {| req_recipients := Some demoRecipients;
     req_subject := Some "Hi {{name|there}}";
     req_htmlContent := Some "<p>Hello {{name}}</p>";
     req_textContent := None;
     req_fromName := Some "Desk" |}.

Definition demoEnv : Env :=
  {| FROM_EMAIL := Some "desk@example.org"; NEXT_PUBLIC_FROM_EMAIL := None |}.

(** A provider that accepts every message of every call. *)
Definition acceptAll (k : nat) (payloads : list Payload) : ProviderReply :=
  Resolves {| resp_data :=
                Some (DataNested (map (fun p => {| item_id := Some "msg" |}) payloads));
              resp_error := None |}.

Definition demoSubmitted : Store :=
  (Send.handler POST demoBody demoEnv 17 "k3x9" ∅).1.2.

Definition demoCompleted : Store :=
  (stepTask acceptAll demoRecipients "Hi {{name|there}}" "<p>Hello {{name}}</p>" ""
     "desk@example.org" (Some "Desk") "batch_17_k3x9"
     (demoSubmitted,
      Running {| results := []; status := processing; totalSent := 0;
                 totalFailed := 0; createdAt := 17 |}
        (loop acceptAll demoRecipients "Hi {{name|there}}" "<p>Hello {{name}}</p>" ""
           "desk@example.org" (Some "Desk") initialLoopState))).1.

Definition twoEmails : list Email :=
  [ {| to := "ann@example.org"; subjectLine := "Hi"; html := "<p>Hi</p>"; text := None |};
    {| to := "bob@example.org"; subjectLine := "Hi"; html := "<p>Hi</p>"; text := None |} ].

Definition flatReply (payloads : list Payload) : ProviderReply :=
  Resolves {| resp_data := Some (DataArray [ {| item_id := Some "m1" |};
                                             {| item_id := None |} ]);
              resp_error := None |}.

Definition singleReply (payloads : list Payload) : ProviderReply :=
  Resolves {| resp_data := Some (DataObject {| item_id := Some "m1" |});
              resp_error := None |}.

Definition manyRecipients (n : nat) : list EmailRecord :=
  map (fun k => {| email := "r" +:+ pretty k +:+ "@example.org"; fields := ∅ |})
      (seq 0 n).


Definition pendingStore : Store := {[ "b1" := createdBatch 17 ]}.

(** * Definitions for the further properties *)





(** A parsed record whose cell in column [column] is a text that
    [validateEmail] accepts. *)
Definition acceptedCell (column : string) (record : FileParser.Row) : bool :=
  match record !! column with
  | Some (FileParser.CellText s) => TemplateTools.validateEmail s
  | _ => false
  end.

Definition sampleRows : list FileParser.Row :=
  [ {["email" := FileParser.CellText "ann@example.org";
      "_rowIndex" := FileParser.CellNumber 2]};
    {["email" := FileParser.CellText "not an address";
      "_rowIndex" := FileParser.CellNumber 3]};
    {["_rowIndex" := FileParser.CellNumber 4]} ].

(** A text in which every white-space character is a blank that stands
    between two characters that are not white space. *)
Definition singleSpaced (l : list ascii) : Prop :=
  ∀ p c s, l = p ++ c :: s → Js.isWhiteSpace c = true →
    c = PlainText.blank
    ∧ (∃ p' a, p = p' ++ [a] ∧ Js.isWhiteSpace a = false)
    ∧ (∃ b s', s = b :: s' ∧ Js.isWhiteSpace b = false).

(** The same read from left to right: [afterSpace] says that the character
    before the text is white space. *)
Fixpoint spaced (afterSpace : bool) (l : list ascii) : Prop :=
  match l with
  | [] => True
  | c :: l' =>
      if Js.isWhiteSpace c
      then c = PlainText.blank ∧ afterSpace = false ∧ spaced true l'
      else spaced false l'
  end.


(** A signing and a verifying function that fit together: a token signed
    under a secret is verified under the same secret, with the user name
    and role that were signed. *)
Definition verifies (sign : Login.Claims → string → option string)
    (verify : string → string → option Auth.User) : Prop :=
  ∀ claims secret token,
    sign claims secret = Some token →
    verify token secret
    = Some {| Auth.username := Some (Login.c_username claims);
              Auth.role := Some (Login.c_role claims) |}.

(** A toy signer and its verifier: only the role admin is signed, and the
    token is the user name. *)
Definition toySign (claims : Login.Claims) (secret : string) : option string :=
  if decide (Login.c_role claims = "admin") then Some (Login.c_username claims)
  else None.

Definition toyVerify (token secret : string) : option Auth.User :=
  Some {| Auth.username := Some token; Auth.role := Some "admin" |}.

(** * Properties *)

(** ** The three renderings of the specification *)

Example render_ann :
  replaceVariables "Hi {{name}}" {["name" := JString "Ann"]} = "Hi Ann".
Proof. reflexivity. Qed.

Example render_friend :
  replaceVariables ("Hi {{name|" +:+ Js.quoted "Friend" +:+ "}}") ∅ = "Hi Friend".
Proof. reflexivity. Qed.

Example render_unresolved :
  replaceVariables "Hi {{name}}" ∅ = "Hi {{name}}".
Proof. reflexivity. Qed.

(** ** The counts of a stored batch *)

Lemma countStatus_nonneg s l : (0 ≤ countStatus s l)%Z.
Proof. unfold countStatus. lia. Qed.

Lemma countStatus_total l :
  (countStatus success l + countStatus failed l = Z.of_nat (length l))%Z.
Proof.
  unfold countStatus. induction l as [|r l IH]; [reflexivity|].
  rewrite !filter_cons. destruct (re_status r) eqn:E.
  - rewrite decide_True by done. rewrite decide_False by done.
    cbn [length]. lia.
  - rewrite decide_False by done. rewrite decide_True by done.
    cbn [length]. lia.
Qed.

Lemma completedBatch_countsAgree batch all : countsAgree (completedBatch batch all).
Proof.
  unfold countsAgree, completedBatch; cbn.
  split; [apply countStatus_total|].
  split; apply countStatus_nonneg.
Qed.

Lemma storeInvariant_insert store id b :
  storeInvariant store → countsAgree b → storeInvariant (<[id := b]> store).
Proof.
  intros Hs Hb id' b'. rewrite lookup_insert.
  case_decide; [intros [= <-]; exact Hb | apply Hs].
Qed.

Lemma step_preserves store store' :
  step store store' → storeInvariant store → storeInvariant store'.
Proof.
  intros Hstep Hinv. destruct Hstep.
  - unfold Send.handler.
    repeat (case_decide || case_match); cbn; try exact Hinv.
    all: apply storeInvariant_insert; [exact Hinv|].
    all: unfold countsAgree; cbn; lia.
  - unfold stepTask; cbn. destruct task as [batch st|]; cbn; [|exact Hinv].
    case_decide; cbn; [exact Hinv|].
    apply storeInvariant_insert; [exact Hinv|apply completedBatch_countsAgree].
  - unfold processBatchAsync_catch.
    destruct (store !! batchId) as [batch|] eqn:E; [|exact Hinv].
    apply storeInvariant_insert; [exact Hinv|].
    exact (Hinv _ _ E).
  - intros id b Hl. unfold cleanupOldBatches in Hl.
    apply map_lookup_filter_Some in Hl as [Hl _]. exact (Hinv _ _ Hl).
Qed.

Lemma reachable_storeInvariant store : reachable store → storeInvariant store.
Proof.
  induction 1 as [|store store' _ IH Hstep].
  - intros id b Hl. rewrite lookup_empty in Hl. discriminate.
  - eapply step_preserves; eassumption.
Qed.

(** C5. In every reachable state of the store, every stored batch has
    [totalSent + totalFailed = results.length], with both counts at least
    zero: at creation, after every write of a background task (completion
    or failure), and after cleanup. *)
Theorem counts_agree_in_every_reachable_state store id b :
  reachable store → store !! id = Some b →
  (totalSent b + totalFailed b = Z.of_nat (length (results b))
   ∧ 0 ≤ totalSent b ∧ 0 ≤ totalFailed b)%Z.
Proof.
  intros Hr. revert id b. change (storeInvariant store).
  induction Hr as [|store store' _ IH Hstep].
  - intros id b Hl. rewrite lookup_empty in Hl. discriminate.
  - exact (step_preserves store store' Hstep IH).
Qed.

Lemma demoCompleted_reachable : reachable demoCompleted.
Proof.
  eapply reach_step; [eapply reach_step; [apply reach_init|]|].
  - apply (step_submit POST demoBody demoEnv 17 "k3x9" ∅).
  - apply step_task.
Defined.

Lemma counts_agree_witness :
  ∃ b, demoCompleted !! "batch_17_k3x9" = Some b
       ∧ status b = completed ∧ length (results b) = 2 ∧ countsAgree b.
Proof.
  eexists. split; [vm_compute; reflexivity|].
  split; [reflexivity|]. split; [reflexivity|].
  apply (counts_agree_in_every_reachable_state demoCompleted "batch_17_k3x9").
  - exact demoCompleted_reachable.
  - vm_compute; reflexivity.
Defined.

(** ** The [catch] block of the background task *)

(** C10. When the exception handler of the background loop runs for a batch
    that is in the store, the stored entry gets status failed and keeps its
    results, totalSent, totalFailed and createdAt; when the batch is not in
    the store the store is unchanged; the entries of other batches are never
    touched. *)
Theorem catch_block_frame batchId store :
  (∀ batch, store !! batchId = Some batch →
     ∃ batch', processBatchAsync_catch batchId store !! batchId = Some batch'
               ∧ status batch' = batchFailed
               ∧ results batch' = results batch
               ∧ totalSent batch' = totalSent batch
               ∧ totalFailed batch' = totalFailed batch
               ∧ createdAt batch' = createdAt batch)
  ∧ (store !! batchId = None → processBatchAsync_catch batchId store = store)
  ∧ (∀ other, other ≠ batchId →
       processBatchAsync_catch batchId store !! other = store !! other).
Proof.
  unfold processBatchAsync_catch. split; [|split].
  - intros batch ->. eexists. rewrite lookup_insert_eq.
    split; [reflexivity|]. cbn. tauto.
  - intros ->. reflexivity.
  - intros other Hne. destruct (store !! batchId); [|reflexivity].
    apply lookup_insert_ne. congruence.
Qed.

Lemma catch_block_frame_witness :
  ∃ batch', processBatchAsync_catch "batch_17_k3x9" demoSubmitted !! "batch_17_k3x9"
            = Some batch'
            ∧ status batch' = batchFailed
            ∧ results batch' = []
            ∧ totalSent batch' = 0%Z
            ∧ totalFailed batch' = 0%Z
            ∧ createdAt batch' = 17%Z.
Proof.
  exact (proj1 (catch_block_frame "batch_17_k3x9" demoSubmitted)
           {| results := []; status := processing; totalSent := 0;
              totalFailed := 0; createdAt := 17 |}
           ltac:(vm_compute; reflexivity)).
Defined.

(** ** The send endpoint *)

Lemma orElse_truthy a b :
  optTruthy (orElse a b) = optTruthy a || optTruthy b.
Proof. unfold orElse. destruct (optTruthy a) eqn:E; [exact E|reflexivity]. Qed.

(** C3. A [POST] whose recipients are missing, empty or more than 1000, whose
    subject or HTML content is missing or empty, or for which no sender
    address is configured, is answered at once with a 400 validation error,
    the store is left as it was and no background task is started. Every
    other [POST] stores a new batch with status processing, no results and
    zero counts, answers 200 with its batchId, and starts the background
    task for that batch without awaiting it. *)
Theorem submit_validates_before_creating body env now rnd store :
  (submissionRefused body env →
     ∃ msg, Send.handler POST body env now rnd store = (reject msg, store, None))
  ∧ (¬ submissionRefused body env →
     ∃ batchId msg launched recipients,
       Send.handler POST body env now rnd store
       = ({| res_code := 200; res_success := true; res_message := msg;
             res_batchId := Some batchId |},
          <[batchId := createdBatch now]> store,
          Some launched)
       ∧ l_batchId launched = batchId
       ∧ req_recipients body = Some recipients
       ∧ l_recipients launched = recipients).
Proof.
  unfold submissionRefused, Send.handler.
  destruct (decide (POST ≠ POST)) as [ne|_]; [exfalso; apply ne; reflexivity|].
  rewrite orElse_truthy.
  destruct (req_recipients body) as [[|r l]|] eqn:Er.
  - split; [intros _; eexists; reflexivity|]. intros H; exfalso; apply H; auto.
  - destruct (optTruthy (req_subject body)) eqn:Es; cbn [negb orb];
      [|split; [intros _; eexists; reflexivity|intros H; exfalso; apply H; auto 10]].
    destruct (optTruthy (req_htmlContent body)) eqn:Eh; cbn [negb orb];
      [|split; [intros _; eexists; reflexivity|intros H; exfalso; apply H; auto 10]].
    destruct (optTruthy (FROM_EMAIL env) || optTruthy (NEXT_PUBLIC_FROM_EMAIL env))
      eqn:Ef; cbn [negb];
      [|split; [intros _; eexists; reflexivity|
                intros H; exfalso; apply H;
                apply orb_false_iff in Ef; auto 10]].
    case_decide as Hlen;
      [split; [intros _; eexists; reflexivity|
               intros H; exfalso; apply H; do 2 right; left; eauto]|].
    split.
    + intros [H|[H|[(l' & H & Hl')|[H|[H|[H1 H2]]]]]]; try discriminate.
      * injection H as <-. lia.
      * rewrite H1, H2 in Ef. discriminate.
    + intros _. do 4 eexists. split; [reflexivity|]. auto.
  - split; [intros _; eexists; reflexivity|]. intros H; exfalso; apply H; auto.
Qed.

Lemma submit_validates_witness :
  (∃ msg, Send.handler POST
            {| req_recipients := Some []; req_subject := Some "s";
               req_htmlContent := Some "h"; req_textContent := None;
               req_fromName := None |} demoEnv 17 "k3x9" ∅
          = (reject msg, ∅, None))
  ∧ (∃ batchId msg launched recipients,
       Send.handler POST demoBody demoEnv 17 "k3x9" ∅
       = ({| res_code := 200; res_success := true; res_message := msg;
             res_batchId := Some batchId |},
          <[batchId := createdBatch 17]> ∅,
          Some launched)
       ∧ l_batchId launched = batchId
       ∧ req_recipients demoBody = Some recipients
       ∧ l_recipients launched = recipients).
Proof.
  split.
  - apply (submit_validates_before_creating _ demoEnv 17 "k3x9" ∅).
    right; left; reflexivity.
  - apply (submit_validates_before_creating demoBody demoEnv 17 "k3x9" ∅).
    intros [H|[H|[(l & H & Hl)|[H|[H|[H _]]]]]]; try discriminate.
    injection H as <-. cbn in Hl. lia.
Defined.

(** ** The status endpoint *)

Lemma Math_round_hundred q : (q == inject_Z 100)%Q → Math_round q = 100%Z.
Proof. intros H. unfold Math_round. rewrite H. reflexivity. Qed.

(** Every result has status success or failed, so the filter of the
    endpoint keeps them all. *)
Lemma completedRecords_all (l : list EmailResult) :
  filter (fun r => re_status r = success ∨ re_status r = failed) l = l.
Proof.
  induction l as [|r l IH]; [reflexivity|].
  rewrite filter_cons, IH.
  rewrite decide_True; [reflexivity|]. destruct (re_status r); auto.
Qed.

Lemma percent_full n : 0 < n → percent n n = 100%Z.
Proof.
  intros Hn. unfold percent. apply Math_round_hundred.
  assert (Hz : ¬ (inject_Z (Z.of_nat n) == 0)%Q).
  { unfold Qeq; cbn. lia. }
  field. exact Hz.
Qed.

Lemma specProgress_full b :
  countsAgree b → results b ≠ [] → specProgress b = 100%Z.
Proof.
  intros (Hsum & _ & _) Hne. unfold specProgress.
  destruct (results b) as [|r l] eqn:E; [congruence|].
  apply Math_round_hundred. rewrite Hsum.
  assert (Hz : ¬ (inject_Z (Z.of_nat (length (r :: l))) == 0)%Q).
  { unfold Qeq; cbn. lia. }
  field. exact Hz.
Qed.

(** C9. For a batch id that is supplied (a non-empty string): when the store
    holds a batch under it, the status endpoint answers 200 with the batch's
    status, results, totalSent and totalFailed and with the progress
    [round(100 * (totalSent + totalFailed) / results.length)], 0 when there
    are no results; when the store holds none, it answers 404. *)
Theorem status_endpoint_reports store id :
  reachable store → jsTruthy id = true →
  match store !! id with
  | Some b =>
      let r := Status.handler GET (QString id) store in
      st_code r = 200
      ∧ st_status r = Some (status b)
      ∧ st_results r = Some (results b)
      ∧ st_totalSent r = Some (totalSent b)
      ∧ st_totalFailed r = Some (totalFailed b)
      ∧ st_progress r = Some (specProgress b)
  | None =>
      Status.handler GET (QString id) store
      = failure 404 "Batch not found or expired"
  end.
Proof.
  intros Hreach Hid. unfold Status.handler, getBatchResults.
  rewrite decide_True by reflexivity. rewrite Hid.
  destruct (store !! id) as [b|] eqn:E; [|reflexivity].
  cbn -[percent specProgress]. repeat (split; [reflexivity|]). f_equal.
  rewrite completedRecords_all.
  pose proof (reachable_storeInvariant store Hreach id b E) as Hc.
  case_decide as Hlen.
  - rewrite percent_full by exact Hlen. symmetry. apply specProgress_full; [exact Hc|].
    intros Hnil. rewrite Hnil in Hlen. cbn in Hlen. lia.
  - unfold specProgress. destruct (results b); [reflexivity|cbn in Hlen; lia].
Qed.

Lemma status_endpoint_witness :
  let r := Status.handler GET (QString "batch_17_k3x9") demoCompleted in
  st_code r = 200
  ∧ st_status r = Some completed
  ∧ option_map (length (A:=EmailResult)) (st_results r) = Some 2
  ∧ st_totalSent r = Some 2%Z
  ∧ st_totalFailed r = Some 0%Z
  ∧ st_progress r = Some 100%Z.
Proof.
  pose proof (status_endpoint_reports demoCompleted "batch_17_k3x9"
                demoCompleted_reachable eq_refl) as H.
  destruct (demoCompleted !! "batch_17_k3x9") as [b|] eqn:E;
    [|vm_compute in E; discriminate].
  vm_compute in E. injection E as <-.
  cbv zeta in *. destruct H as (H1 & H2 & H3 & H4 & H5 & H6).
  rewrite H1, H2, H3, H4, H5, H6. vm_compute. repeat split; reflexivity.
Defined.

(** ** The chunk loop *)

Lemma ceil_step n : 0 < n → (n + 99) / 100 = S ((n - 100 + 99) / 100).
Proof.
  intros Hn. destruct (decide (n < 100)) as [Hlt|Hge].
  - replace (n - 100 + 99) with 99 by lia.
    rewrite (Nat.div_small 99 100) by lia.
    assert (n + 99 = 1 * 100 + (n - 1)) as -> by lia.
    rewrite Nat.div_add_l by lia. rewrite Nat.div_small by lia. reflexivity.
  - assert (n + 99 = 1 * 100 + (n - 100 + 99)) as -> by lia.
    rewrite Nat.div_add_l by lia. reflexivity.
Qed.

Lemma sendEmailBatch_events send emails fromEmail fromName :
  (sendEmailBatch send emails fromEmail fromName).1
  = [EvSend (emailPayloads emails fromEmail fromName)].
Proof.
  unfold sendEmailBatch, sendEmailBatch_try; cbn.
  destruct (send _); reflexivity.
Qed.

Lemma sentPayloads_app tr1 tr2 :
  sentPayloads (tr1 ++ tr2) = sentPayloads tr1 ++ sentPayloads tr2.
Proof.
  induction tr1 as [|[p|ms] tr1 IH]; cbn; [reflexivity| |exact IH].
  rewrite IH. reflexivity.
Qed.

Section ChunkLoop.
Variable provider : nat → list Payload → ProviderReply.
Variable recipients : list EmailRecord.
Variables subject htmlContent textContent fromEmail : string.
Variable fromName : option string.

Local Abbreviation run :=
  (loop provider recipients subject htmlContent textContent fromEmail fromName).
Local Abbreviation body :=
  (loopBody provider recipients subject htmlContent textContent fromEmail fromName).
Local Abbreviation payloadsAt :=
  (chunkPayloads recipients subject htmlContent textContent fromEmail fromName).

Lemma loop_step st :
  run st = if decide (i st < length recipients) then run (body st) else st.
Proof.
  simp loop. destruct (decide (i st < length recipients)); try simp loop; reflexivity.
Qed.

Lemma loop_done st : length recipients ≤ i st → run st = st.
Proof. intros H. rewrite loop_step. rewrite decide_False by lia. reflexivity. Qed.

Lemma loop_next st : i st < length recipients → run st = run (body st).
Proof. intros H. rewrite loop_step. rewrite decide_True by exact H. reflexivity. Qed.

Lemma body_trace st :
  trace (body st)
  = trace st ++ EvSend (payloadsAt (i st))
      :: (if decide (i st + BATCH_SIZE < length recipients) then [EvDelay 1000] else []).
Proof. unfold loopBody; cbn [trace]. rewrite sendEmailBatch_events. reflexivity. Qed.

Lemma chunkPayloads_length k : length (payloadsAt k) ≤ 100.
Proof.
  unfold chunkPayloads, emailPayloads, slice, BATCH_SIZE.
  rewrite !length_map, length_take. lia.
Qed.

Lemma chunkPayloads_to k :
  map pl_to (payloadsAt k)
  = map (fun r => [email r]) (take 100 (drop k recipients)).
Proof.
  unfold chunkPayloads, emailPayloads, slice, BATCH_SIZE.
  replace (k + 100 - k) with 100 by lia.
  rewrite !map_map. reflexivity.
Qed.

Lemma loop_trace m : ∀ st,
  length recipients - i st ≤ m →
  ∃ T, trace (run st) = trace st ++ T ∧ tailOK recipients (i st) T.
Proof.
  induction m as [|m IH]; intros st Hm.
  - exists []. rewrite loop_done by lia. rewrite app_nil_r. split; [reflexivity|].
    unfold tailOK. replace (length recipients - i st) with 0 by lia.
    rewrite drop_ge by lia. cbn. repeat split; auto; lia.
  - destruct (decide (i st < length recipients)) as [Hlt|Hge].
    + destruct (IH (body st)) as (T' & HT' & Hw & Hn & Hall & Hcat & Hne & Hnil).
      { unfold loopBody, BATCH_SIZE; cbn. lia. }
      rewrite loop_next by exact Hlt. rewrite HT', body_trace.
      replace (i (body st)) with (i st + 100) in * by reflexivity.
      eexists. split; [rewrite <- app_assoc; reflexivity|].
      unfold BATCH_SIZE. cbn [app].
      assert (Hs : sentPayloads
                     ((if decide (i st + 100 < length recipients)
                       then [EvDelay 1000] else []) ++ T')
                   = sentPayloads T').
      { case_decide; reflexivity. }
      unfold tailOK. cbn [sentPayloads]. rewrite Hs.
      repeat split.
      * case_decide as Hmore; cbn [app wellPaced].
        -- rewrite bool_decide_eq_true_2 by reflexivity. cbn [andb].
           specialize (Hne Hmore). destruct T'; [congruence|exact Hw].
        -- rewrite (Hnil ltac:(lia)). reflexivity.
      * cbn [length]. rewrite Hn.
        rewrite (ceil_step (length recipients - i st)) by lia.
        do 3 f_equal. lia.
      * constructor; [apply chunkPayloads_length|exact Hall].
      * cbn [map concat]. rewrite Hcat, chunkPayloads_to.
        rewrite <- map_app, <- (drop_drop recipients 100 (i st)), take_drop.
        reflexivity.
      * intros _. discriminate.
      * intros Hle. lia.
    + exists []. rewrite loop_done by lia. rewrite app_nil_r. split; [reflexivity|].
      unfold tailOK. replace (length recipients - i st) with 0 by lia.
      rewrite drop_ge by lia. cbn. repeat split; auto; lia.
Qed.

(** C4. For a batch of N recipients the chunk loop makes exactly
    ceil(N / 100) provider calls, each with at most 100 messages, the
    messages of the calls taken together being addressed to the
    recipients in input order; consecutive calls are separated by one
    delay of 1000 ms and no delay follows the last call. *)
Theorem chunk_loop_calls_and_pacing :
  let tr := processBatchTrace provider recipients subject htmlContent
              textContent fromEmail fromName in
  length (sentPayloads tr) = (length recipients + 99) / 100
  ∧ Forall (fun p => length p ≤ 100) (sentPayloads tr)
  ∧ concat (map (map pl_to) (sentPayloads tr)) = map (fun r => [email r]) recipients
  ∧ wellPaced tr = true.
Proof.
  cbv zeta. unfold processBatchTrace.
  destruct (loop_trace (length recipients) initialLoopState)
    as (T & HT & Hw & Hn & Hall & Hcat & _ & _).
  { cbn. lia. }
  cbn in HT, Hn, Hcat. rewrite HT.
  rewrite Nat.sub_0_r in Hn. auto.
Qed.

End ChunkLoop.


Lemma ceil_bound n k : k < (n + 99) / 100 → k * 100 < n.
Proof.
  intros H.
  pose proof (Nat.Div0.mul_div_le (n + 99) 100). lia.
Qed.

Section LoopResults.
Variable provider : nat → list Payload → ProviderReply.
Variable recipients : list EmailRecord.
Variables subject htmlContent textContent fromEmail : string.
Variable fromName : option string.

Local Abbreviation run :=
  (loop provider recipients subject htmlContent textContent fromEmail fromName).
Local Abbreviation body :=
  (loopBody provider recipients subject htmlContent textContent fromEmail fromName).
Local Abbreviation outcomes :=
  (chunkResults provider recipients subject htmlContent textContent fromEmail fromName).
Local Abbreviation chunks := ((length recipients + 99) / 100).

Lemma body_allResults st :
  i st = calls st * BATCH_SIZE →
  allResults (body st) = allResults st ++ outcomes (calls st).
Proof.
  intros Hi. unfold loopBody, chunkResults, chunkEmails; cbn [allResults].
  rewrite Hi. reflexivity.
Qed.



(** The loop state after [k] iterations. *)
Lemma iter_body k :
  let st := Nat.iter k body initialLoopState in
  i st = k * BATCH_SIZE ∧ calls st = k
  ∧ allResults st = concat (map outcomes (seq 0 k)).
Proof.
  induction k as [|k IH]; cbv zeta.
  - cbn. repeat split.
  - cbv zeta in IH. rewrite Nat.iter_succ.
    set (st := Nat.iter k body initialLoopState) in *. clearbody st.
    destruct IH as (Hi & Hc & Hr).
    split; [unfold loopBody; cbn [i]; rewrite Hi; unfold BATCH_SIZE; lia|].
    split; [unfold loopBody; cbn [calls]; rewrite Hc; reflexivity|].
    rewrite body_allResults by (rewrite Hi, Hc; reflexivity).
    rewrite Hr, Hc. rewrite seq_S, map_app, concat_app. cbn.
    rewrite app_nil_r. reflexivity.
Qed.

End LoopResults.

(** ** sendEmailBatch *)

Lemma itemResult_email e item : re_email (itemResult e item) = to e.
Proof.
  unfold itemResult. destruct (item_id item) as [id|]; [|reflexivity].
  destruct (jsTruthy id); reflexivity.
Qed.

Lemma pushEach_in_range emails : ∀ items index results,
  index + length items ≤ length emails →
  pushEach emails items index results
  = (results ++ zip_with itemResult (drop index emails) items, None).
Proof.
  induction items as [|item items IH]; intros index results Hlen; cbn [pushEach].
  - destruct (drop index emails); cbn; rewrite app_nil_r; reflexivity.
  - cbn [length] in Hlen.
    destruct (emails !! index) as [e|] eqn:E.
    + rewrite IH by lia. rewrite (drop_S _ _ _ E). cbn [zip_with].
      rewrite <- app_assoc. reflexivity.
    + apply lookup_ge_None in E. lia.
Qed.

Lemma zip_with_itemResult_email emails items :
  length items ≤ length emails →
  map re_email (zip_with itemResult emails items)
  = take (length items) (map to emails).
Proof.
  revert items. induction emails as [|e emails IH]; intros [|item items] Hlen;
    cbn in *; try reflexivity; try lia.
  rewrite itemResult_email, IH by lia. reflexivity.
Qed.


(** C6, as amended. For a chunk of n messages [sendEmailBatch] returns:
    when the provider call throws, n failed outcomes, one per message in
    input order, with the exception's message; when the response has an
    error or no data, n failed outcomes, one per message in input order,
    with the provider's top-level error text; when the response is a flat
    or nested list of m <= n entries, m outcomes, outcome i being built from
    entry i for message i (so exactly n when the list has one entry per
    message); when the response is a single object, one outcome, for the
    first message. *)
Theorem sendEmailBatch_outcomes send emails fromEmail fromName :
  let out := (sendEmailBatch send emails fromEmail fromName).2 in
  match send (emailPayloads emails fromEmail fromName) with
  | Rejects e => out = map (failedResult (thrownText e)) emails
  | Resolves r =>
      match resp_data r, resp_error r with
      | Some (DataArray items), None | Some (DataNested items), None =>
          length items ≤ length emails →
          out = zip_with itemResult emails items
          ∧ length out = length items
          ∧ map re_email out = take (length items) (map to emails)
      | Some (DataObject item), None =>
          ∀ e rest, emails = e :: rest → out = [itemResult e item]
      | _, _ => out = map (failedResult (errorText r)) emails
      end
  end.
Proof.
  cbv zeta. unfold sendEmailBatch, sendEmailBatch_try.
  destruct (send _) as [r|e]; cbn [fst snd]; [|reflexivity].
  destruct (resp_data r) as [[items|items|item]|], (resp_error r) as [err|];
    try reflexivity.
  - intros Hlen. rewrite pushEach_in_range by (cbn; lia). rewrite drop_0.
    cbn [fst snd app].
    split; [reflexivity|]. split; [|apply zip_with_itemResult_email; exact Hlen].
    rewrite length_zip_with. lia.
  - intros Hlen. rewrite pushEach_in_range by (cbn; lia). rewrite drop_0.
    cbn [fst snd app].
    split; [reflexivity|]. split; [|apply zip_with_itemResult_email; exact Hlen].
    rewrite length_zip_with. lia.
  - intros e rest ->. reflexivity.
Qed.

Lemma sendEmailBatch_outcomes_witness :
  let out := (sendEmailBatch flatReply twoEmails "desk@example.org" None).2 in
  out = zip_with itemResult twoEmails [ {| item_id := Some "m1" |}; {| item_id := None |} ]
  ∧ length out = 2
  ∧ map re_email out = ["ann@example.org"; "bob@example.org"].
Proof.
  apply (sendEmailBatch_outcomes flatReply twoEmails "desk@example.org" None).
  cbn. lia.
Defined.

(** C6 as stated fails: a single-object response to a chunk of two messages
    yields one outcome, for the first message only, and the second message
    is not marked failed. *)
Lemma sendEmailBatch_single_object_counterexample :
  let out := (sendEmailBatch singleReply twoEmails "desk@example.org" None).2 in
  out = [ {| re_email := "ann@example.org"; re_status := success;
             messageId := Some "m1"; error := None |} ]
  ∧ length out ≠ length twoEmails.
Proof. split; [reflexivity|]. cbn. lia. Qed.

(** ** A provider call that throws *)

Section ProviderThrows.
Variable provider : nat → list Payload → ProviderReply.
Variable recipients : list EmailRecord.
Variables subject htmlContent textContent fromEmail : string.
Variable fromName : option string.

Local Abbreviation outcomes :=
  (chunkResults provider recipients subject htmlContent textContent fromEmail fromName).
Local Abbreviation messages :=
  (chunkEmails recipients subject htmlContent textContent).


(** C2, as amended. The loop appends each chunk's outcomes to its local
    list and does not write to the store: after k iterations, for every k up
    to the number of chunks, the store is the one the task started with (the
    batch still as it was read, processing and without results) and the
    local list holds exactly the outcomes of the first k chunks; the step
    after the last chunk is the single write that stores them all. *)
Theorem results_reach_store_only_at_end batchId store batch k :
  store !! batchId = Some batch →
  k ≤ (length recipients + 99) / 100 →
  let step := afterSteps provider recipients subject htmlContent textContent
                fromEmail fromName batchId store in
  (∃ st, step k = (store, Running batch st)
         ∧ allResults st = concat (map outcomes (seq 0 k)))
  ∧ step (S ((length recipients + 99) / 100))
    = (<[batchId := completedBatch batch
                      (concat (map outcomes
                                 (seq 0 ((length recipients + 99) / 100))))]> store,
       Finished).
Proof.
  intros Hb Hk. cbv zeta.
  assert (Hrun : ∀ j, j ≤ (length recipients + 99) / 100 →
            afterSteps provider recipients subject htmlContent textContent
              fromEmail fromName batchId store j
            = (store, Running batch
                 (Nat.iter j (loopBody provider recipients subject htmlContent
                                textContent fromEmail fromName)
                    initialLoopState))).
  { induction j as [|j IH]; intros Hj.
    - unfold afterSteps, startTask. rewrite Hb. reflexivity.
    - unfold afterSteps in *. rewrite Nat.iter_succ, IH by lia.
      unfold stepTask; cbn [fst snd].
      destruct (iter_body provider recipients subject htmlContent textContent
                  fromEmail fromName j) as (Hi & _ & _).
      rewrite decide_True; [reflexivity|].
      rewrite Hi. apply ceil_bound. lia. }
  split.
  - eexists. split; [apply Hrun; exact Hk|].
    apply (iter_body provider recipients subject htmlContent textContent
             fromEmail fromName k).
  - unfold afterSteps in *. rewrite Nat.iter_succ, Hrun by lia.
    unfold stepTask; cbn [fst snd].
    destruct (iter_body provider recipients subject htmlContent textContent
                fromEmail fromName ((length recipients + 99) / 100))
      as (Hi & _ & Hr).
    rewrite decide_False.
    + rewrite Hr. reflexivity.
    + rewrite Hi. unfold BATCH_SIZE.
      pose proof (Nat.div_mod_eq (length recipients + 99) 100).
      pose proof (Nat.mod_upper_bound (length recipients + 99) 100). lia.
Qed.

End ProviderThrows.



Lemma results_reach_store_witness :
  (∃ st, afterSteps acceptAll (manyRecipients 150) "Hi" "<p>Hi</p>" ""
           "desk@example.org" None "b1" pendingStore 1
         = (pendingStore, Running (createdBatch 17) st)
         ∧ allResults st
           = concat (map (chunkResults acceptAll (manyRecipients 150) "Hi"
                            "<p>Hi</p>" "" "desk@example.org" None) (seq 0 1)))
  ∧ afterSteps acceptAll (manyRecipients 150) "Hi" "<p>Hi</p>" ""
      "desk@example.org" None "b1" pendingStore
      (S ((length (manyRecipients 150) + 99) / 100))
    = (<["b1" := completedBatch (createdBatch 17)
                   (concat (map (chunkResults acceptAll (manyRecipients 150) "Hi"
                                   "<p>Hi</p>" "" "desk@example.org" None)
                              (seq 0 ((length (manyRecipients 150) + 99) / 100))))]>
         pendingStore,
       Finished).
Proof.
  apply (results_reach_store_only_at_end acceptAll (manyRecipients 150) "Hi"
           "<p>Hi</p>" "" "desk@example.org" None "b1" pendingStore
           (createdBatch 17) 1).
  - reflexivity.
  - vm_compute. lia.
Defined.

(** C2 as stated fails: with 150 recipients, after the first chunk's
    provider call and before the second chunk, the stored batch still has no
    results, while the first chunk produced 100 outcomes. *)
Lemma stored_results_after_first_chunk_counterexample :
  ∃ b, (afterSteps acceptAll (manyRecipients 150) "Hi" "<p>Hi</p>" ""
          "desk@example.org" None "b1" pendingStore 1).1 !! "b1" = Some b
       ∧ status b = processing
       ∧ results b = []
       ∧ length (chunkResults acceptAll (manyRecipients 150) "Hi" "<p>Hi</p>" ""
                   "desk@example.org" None 0) = 100
       ∧ results b ≠ chunkResults acceptAll (manyRecipients 150) "Hi" "<p>Hi</p>" ""
                       "desk@example.org" None 0.
Proof.
  eexists. split; [vm_compute; reflexivity|].
  split; [reflexivity|]. split; [reflexivity|].
  split; [vm_compute; reflexivity|].
  intros H. apply (f_equal length) in H. vm_compute in H. discriminate H.
Qed.

(** ** The template renderer *)

Import Js.

Lemma replaceAll_nil f : replaceAll f [] = [].
Proof. simp replaceAll. reflexivity. Qed.

Lemma replaceAll_cons f c l' :
  replaceAll f (c :: l')
  = match matchToken (c :: l') with
    | Some (body, rest) => f body ++ replaceAll f rest
    | None => c :: replaceAll f l'
    end.
Proof.
  simp replaceAll.
  destruct (inspect (matchToken (c :: l'))) as [[[b r]|] e]; simp replaceAll;
    rewrite e; reflexivity.
Qed.

Lemma replaceAll_match f l body rest :
  matchToken l = Some (body, rest) → replaceAll f l = f body ++ replaceAll f rest.
Proof.
  intros H. destruct l as [|c l']; [discriminate|].
  rewrite replaceAll_cons, H. reflexivity.
Qed.

Lemma spanBody_app b r :
  closeBrace ∉ b → spanBody (b ++ closeBrace :: r) = (b, closeBrace :: r).
Proof.
  induction b as [|c b IH]; intros Hb; cbn.
  - rewrite decide_True by reflexivity. reflexivity.
  - apply not_elem_of_cons in Hb as [Hc Hb].
    rewrite decide_False by congruence. rewrite IH by exact Hb. reflexivity.
Qed.

Lemma spanBody_inv l b r :
  spanBody l = (b, r) →
  l = b ++ r ∧ (closeBrace ∉ b).
Proof.
  revert b r. induction l as [|c l IH]; intros b r; cbn.
  - intros [= <- <-]. split; [reflexivity|apply not_elem_of_nil].
  - destruct (decide (c = closeBrace)) as [->|Hc].
    + intros [= <- <-]. split; [reflexivity|apply not_elem_of_nil].
    + destruct (spanBody l) as [b' r'] eqn:E. intros [= <- <-].
      destruct (IH b' r' eq_refl) as (-> & Hb).
      split; [reflexivity|].
      apply not_elem_of_cons. split; [congruence|exact Hb].
Qed.

Lemma matchToken_token b r :
  b ≠ [] → closeBrace ∉ b → matchToken (token b ++ r) = Some (b, r).
Proof.
  intros Hne Hb. unfold token. cbn [app matchToken].
  rewrite !decide_True by reflexivity.
  rewrite <- app_assoc. cbn [app]. rewrite spanBody_app by exact Hb.
  destruct b; [congruence|].
  rewrite !decide_True by reflexivity. reflexivity.
Qed.

Lemma matchToken_inv l b r :
  matchToken l = Some (b, r) → l = token b ++ r ∧ b ≠ [] ∧ closeBrace ∉ b.
Proof.
  unfold matchToken.
  destruct l as [|c1 [|c2 l2]]; try discriminate.
  destruct (decide (c1 = openBrace)) as [->|]; try discriminate.
  destruct (decide (c2 = openBrace)) as [->|]; try discriminate.
  destruct (spanBody l2) as [b0 r0] eqn:E.
  destruct b0 as [|b1 b0]; try discriminate.
  destruct r0 as [|d1 [|d2 r0]]; try discriminate.
  destruct (decide (d1 = closeBrace)) as [->|]; try discriminate.
  destruct (decide (d2 = closeBrace)) as [->|]; try discriminate.
  intros [= <- <-]. apply spanBody_inv in E as (-> & Hb).
  split; [|split; [discriminate|exact Hb]].
  unfold token. rewrite <- !app_assoc. reflexivity.
Qed.

Lemma matchToken_head c l : c ≠ openBrace → matchToken (c :: l) = None.
Proof.
  intros Hc. unfold matchToken. destruct l; [reflexivity|].
  rewrite decide_False by exact Hc. reflexivity.
Qed.

Lemma matchToken_second c d l : d ≠ openBrace → matchToken (c :: d :: l) = None.
Proof.
  intros Hd. unfold matchToken.
  destruct (decide (c = openBrace)); [|reflexivity].
  rewrite decide_False by exact Hd. reflexivity.
Qed.

(** Text without an opening brace is copied. *)
Lemma replaceAll_literal f v s :
  openBrace ∉ v → replaceAll f (v ++ s) = v ++ replaceAll f s.
Proof.
  induction v as [|c v IH]; intros Hv; [reflexivity|].
  apply not_elem_of_cons in Hv as [Hc Hv].
  cbn [app]. rewrite replaceAll_cons, matchToken_head by congruence.
  rewrite IH by exact Hv. reflexivity.
Qed.

Lemma first_close_unique a a' t t' :
  closeBrace ∉ a → closeBrace ∉ a' →
  a ++ closeBrace :: t = a' ++ closeBrace :: t' → a = a' ∧ t = t'.
Proof.
  revert a'. induction a as [|c a IH]; intros [|c' a'] Ha Ha' H; cbn in H.
  - injection H as ->. auto.
  - injection H as <- _. exfalso. apply Ha'. left.
  - injection H as -> _. exfalso. apply Ha. left.
  - injection H as <- H.
    apply not_elem_of_cons in Ha as [_ Ha]. apply not_elem_of_cons in Ha' as [_ Ha'].
    destruct (IH a' Ha Ha' H) as [-> ->]. auto.
Qed.

Lemma matchToken_context x b r Z :
  x ≠ [] → b ≠ [] → closeBrace ∉ b →
  matchToken (x ++ token b ++ r) = None →
  noCloseAhead Z →
  matchToken (x ++ Z) = None.
Proof.
  intros Hx Hne Hb Hnone HZ.
  destruct (matchToken (x ++ Z)) as [[b' r']|] eqn:E; [exfalso|reflexivity].
  apply matchToken_inv in E as (E & Hne' & Hb').
  destruct (decide (closeBrace ∈ x)) as [Hin|Hnotin].
  - apply list_elem_of_split_l in Hin as (x1 & x2 & -> & Hx1).
    unfold token in E. rewrite <- !app_assoc in E. cbn [app] in E.
    change (openBrace :: openBrace :: b' ++ closeBrace :: closeBrace :: r')
      with (([openBrace; openBrace] ++ b') ++ closeBrace :: closeBrace :: r') in E.
    apply first_close_unique in E as [-> E]; [|exact Hx1|].
    + destruct x2 as [|d x2].
      * unfold noCloseAhead in HZ. cbn in E. rewrite E in HZ. cbn in HZ. congruence.
      * cbn in E. injection E as -> E.
        assert (Hs : matchToken (token b' ++ (x2 ++ token b ++ r)) = Some (b', x2 ++ token b ++ r))
          by (apply matchToken_token; assumption).
        unfold token in Hs at 1. rewrite <- !app_assoc in Hs. cbn [app] in Hs.
        rewrite <- !app_assoc in Hnone. cbn [app] in Hnone. congruence.
    + cbn. intros Hin. apply elem_of_cons in Hin as [Hin|Hin]; [discriminate|].
      apply elem_of_cons in Hin as [Hin|Hin]; [discriminate|]. exact (Hb' Hin).
  - destruct x as [|c1 x]; [congruence|].
    destruct (decide (c1 = openBrace)) as [->|Hc1];
      [|cbn in E; unfold token in E; cbn in E; congruence].
    apply not_elem_of_cons in Hnotin as [_ Hnotin].
    assert (Hs : ∀ y, closeBrace ∉ y →
               matchToken (token (y ++ [openBrace; openBrace] ++ b) ++ r)
               = Some (y ++ [openBrace; openBrace] ++ b, r)).
    { intros y Hy. apply matchToken_token.
      - destruct y; discriminate.
      - intros Hin. apply elem_of_app in Hin as [Hin|Hin]; [exact (Hy Hin)|].
        apply elem_of_cons in Hin as [Hin|Hin]; [discriminate|].
        apply elem_of_cons in Hin as [Hin|Hin]; [discriminate|]. exact (Hb Hin). }
    destruct x as [|c2 x].
    + (* x = "{" *)
      specialize (Hs [] (not_elem_of_nil _)).
      unfold token in Hs, Hnone. cbn [app] in Hs, Hnone.
      rewrite <- !app_assoc in Hs. cbn [app] in Hs.
      destruct b as [|b0 b]; [congruence|].
      cbn [app] in *.
      assert (Hs2 : matchToken (token (openBrace :: b0 :: b) ++ r) = Some (openBrace :: b0 :: b, r)).
      { apply matchToken_token; [discriminate|].
        intros Hin. apply elem_of_cons in Hin as [Hin|Hin]; [discriminate|]. exact (Hb Hin). }
      unfold token in Hs2. cbn [app] in Hs2. rewrite <- !app_assoc in Hs2. cbn [app] in Hs2.
      rewrite <- !app_assoc in Hnone. cbn [app] in Hnone. congruence.
    + destruct (decide (c2 = openBrace)) as [->|Hc2];
        [|cbn in E; unfold token in E; cbn in E; congruence].
      apply not_elem_of_cons in Hnotin as [_ Hnotin].
      specialize (Hs x Hnotin).
      unfold token in Hs, Hnone. cbn [app] in Hs, Hnone.
      rewrite <- !app_assoc in Hs. cbn [app] in Hs.
      rewrite <- !app_assoc in Hnone. cbn [app] in Hnone. congruence.
Qed.

Lemma split_no_sep sep b : sep ∉ b → split sep b = [b].
Proof.
  induction b as [|c b IH]; intros Hb; [reflexivity|].
  apply not_elem_of_cons in Hb as [Hc Hb]. cbn.
  rewrite decide_False by congruence. rewrite IH by exact Hb. reflexivity.
Qed.

Lemma split_pieces sep ps : ∀ p,
  sep ∉ p → Forall (fun q => sep ∉ q) ps →
  split sep (p ++ flat_map (fun q => sep :: q) ps) = p :: ps.
Proof.
  induction ps as [|q ps IH]; intros p Hp Hps.
  - cbn. rewrite app_nil_r. apply split_no_sep. exact Hp.
  - apply Forall_cons in Hps as [Hq Hps].
    induction p as [|c p IHp].
    + cbn. rewrite decide_True by reflexivity. rewrite IH by assumption. reflexivity.
    + apply not_elem_of_cons in Hp as [Hc Hp]. cbn [app split].
      rewrite decide_False by congruence. rewrite IHp by exact Hp. reflexivity.
Qed.

Lemma text_chars s : text (chars s) = s.
Proof. apply string_of_list_ascii_of_string. Qed.

Lemma chars_text l : chars (text l) = l.
Proof. apply list_ascii_of_string_of_list_ascii. Qed.

Lemma replaceVariables_eq template data :
  replaceVariables template data = text (replaceAll (replacer data) (chars template)).
Proof.
  unfold replaceVariables. destruct template; [|reflexivity].
  cbn. rewrite replaceAll_nil. reflexivity.
Qed.

(** ** The segments of a template *)

Lemma segments_nil : segments [] = [].
Proof. simp segments. reflexivity. Qed.

Lemma segments_cons c l' :
  segments (c :: l')
  = match matchToken (c :: l') with
    | Some (body, rest) => Tok body :: segments rest
    | None => Lit c :: segments l'
    end.
Proof.
  simp segments.
  destruct (inspect (matchToken (c :: l'))) as [[[b r]|] e]; simp segments;
    rewrite e; reflexivity.
Qed.

Lemma segments_match l body rest :
  matchToken l = Some (body, rest) → segments l = Tok body :: segments rest.
Proof.
  intros H. destruct l as [|c l']; [discriminate|].
  rewrite segments_cons, H. reflexivity.
Qed.

(** The output is the concatenation of what stands for each segment. *)
Lemma replaceAll_segments f l :
  replaceAll f l = flat_map (outputOf f) (segments l).
Proof.
  funelim (segments l).
  - rewrite replaceAll_nil. reflexivity.
  - rewrite replaceAll_cons, e. cbn [flat_map outputOf]. rewrite H. reflexivity.
  - rewrite replaceAll_cons, e. cbn [flat_map outputOf app]. rewrite H. reflexivity.
Qed.

(** The segments are a cutting of the template. *)
Lemma segments_source l : flat_map sourceOf (segments l) = l.
Proof.
  funelim (segments l).
  - reflexivity.
  - cbn [flat_map sourceOf]. rewrite H.
    symmetry. exact (proj1 (matchToken_inv _ _ _ e)).
  - cbn [flat_map sourceOf app]. rewrite H. reflexivity.
Qed.

(** A token has a body that is not empty and has no closing brace. *)
Lemma segments_tok l body :
  Tok body ∈ segments l → body ≠ [] ∧ (closeBrace ∉ body).
Proof.
  funelim (segments l); intros Hin.
  - inversion Hin.
  - apply elem_of_cons in Hin as [[= ->]|Hin]; [|exact (H _ Hin)].
    exact (proj2 (matchToken_inv _ _ _ e)).
  - apply elem_of_cons in Hin as [[=]|Hin]. exact (H _ Hin).
Qed.

(** A character is copied only where no token begins. *)
Lemma segments_lit l : ∀ before c after,
  segments l = before ++ Lit c :: after →
  matchToken (c :: flat_map sourceOf after) = None.
Proof.
  funelim (segments l); intros before c0 after Hs.
  - destruct before; discriminate.
  - destruct before as [|s before]; [discriminate|].
    injection Hs as _ Hs. exact (H _ _ _ Hs).
  - destruct before as [|s before].
    + injection Hs as <- <-. rewrite segments_source. exact e.
    + injection Hs as _ Hs. exact (H _ _ _ Hs).
Qed.

Lemma render_segments template data :
  chars (replaceVariables template data)
  = flat_map (outputOf (replacer data)) (segments (chars template)).
Proof.
  rewrite replaceVariables_eq, chars_text. apply replaceAll_segments.
Qed.

(** Every text is a first piece followed by further pieces, each introduced
    by the separator, and [split] finds them. *)
Lemma split_join sep l :
  ∃ p ps, split sep l = p :: ps
          ∧ l = p ++ flat_map (fun q => sep :: q) ps
          ∧ Forall (fun q => sep ∉ q) (p :: ps).
Proof.
  induction l as [|c l (p & ps & Hs & Hl & Hf)].
  - exists [], []. split; [reflexivity|]. split; [reflexivity|].
    repeat constructor. apply not_elem_of_nil.
  - cbn [split]. destruct (decide (c = sep)) as [->|Hc].
    + exists [], (p :: ps). split; [rewrite Hs; reflexivity|].
      split; [cbn; rewrite <- Hl; reflexivity|].
      constructor; [apply not_elem_of_nil|exact Hf].
    + rewrite Hs. exists (c :: p), ps. split; [reflexivity|].
      split; [cbn; rewrite <- Hl; reflexivity|].
      apply Forall_cons in Hf as [Hp Hps]. constructor; [|exact Hps].
      apply not_elem_of_cons. split; [congruence|exact Hp].
Qed.

Lemma replacer_no_pipe data b :
  pipe ∉ b →
  replacer data b
  = match getProperty data (text (trim b)) with
    | Some (JString (String c s)) => chars (String c s)
    | Some (JOther rendering) => chars rendering
    | _ => token b
    end.
Proof.
  intros Hb. unfold replacer. rewrite split_no_sep by exact Hb.
  change (text (default [] (map trim [b] !! 0))) with (text (trim b)).
  destruct (getProperty data (text (trim b))) as [[|[|c s]|r]|]; reflexivity.
Qed.

Lemma replacer_pieces data name more :
  Forall (fun q => pipe ∉ q) (name :: more) →
  replacer data (tokenBody name more)
  = let fallback :=
      match more with
      | fb :: _ => if truthy (trim fb) then stripQuotes (trim fb)
                   else token (tokenBody name more)
      | [] => token (tokenBody name more)
      end in
    match getProperty data (text (trim name)) with
    | Some (JString (String c s)) => chars (String c s)
    | Some (JOther rendering) => chars rendering
    | _ => fallback
    end.
Proof.
  intros H. apply Forall_cons in H as [Hn Hm].
  unfold replacer, tokenBody. rewrite split_pieces by assumption.
  change (text (default [] (map trim (name :: more) !! 0))) with (text (trim name)).
  cbv zeta.
  destruct (getProperty data (text (trim name))) as [[|[|c s]|r]|];
    destruct more; reflexivity.
Qed.

(** ** Rendering twice *)

(** A text without two opening braces in a row that does not end with an
    opening brace is copied, whatever follows it. *)
Lemma replaceAll_inert f v : ∀ s,
  last v ≠ Some openBrace → (∀ a b, v ≠ a ++ openBrace :: openBrace :: b) →
  replaceAll f (v ++ s) = v ++ replaceAll f s.
Proof.
  induction v as [|c v IH]; intros s Hl Hs; [reflexivity|].
  cbn [app]. rewrite replaceAll_cons.
  assert (Hnone : matchToken (c :: v ++ s) = None).
  { destruct (decide (c = openBrace)) as [->|Hc]; [|apply matchToken_head; exact Hc].
    destruct v as [|d v]; [exfalso; apply Hl; reflexivity|].
    cbn [app]. apply matchToken_second. intros ->. exact (Hs [] v eq_refl). }
  rewrite Hnone. f_equal. apply IH.
  - destruct v as [|d v]; [discriminate|]. exact Hl.
  - intros a b ->. exact (Hs (c :: a) b eq_refl).
Qed.

Section Idempotence.
Variable f : list ascii → list ascii.
Variable good : list ascii → Prop.

(** [good] texts stay [good] along the scan, and on the capture groups the
    scan finds in them the callback gives the token back or an inert
    text. *)
Hypothesis good_tail : ∀ c l, good (c :: l) → matchToken (c :: l) = None → good l.
Hypothesis good_rest : ∀ l b r, good l → matchToken l = Some (b, r) → good r.
Hypothesis f_plain : ∀ l b r, good l → matchToken l = Some (b, r) →
  f b = token b ∨ inert (f b).

Lemma f_noCloseAhead l b r Y :
  good l → matchToken l = Some (b, r) → noCloseAhead (f b ++ Y).
Proof.
  intros Hg Hm. unfold noCloseAhead.
  destruct (f_plain l b r Hg Hm) as [->|(Hne & Hc & _)]; [discriminate|].
  destruct (f b) as [|c v]; [congruence|]. exact Hc.
Qed.

Lemma replaceAll_context l : ∀ x,
  good l → x ≠ [] →
  matchToken (x ++ l) = None → matchToken (x ++ replaceAll f l) = None.
Proof.
  induction l as [|c l IH]; intros x Hg Hx Hnone.
  - rewrite replaceAll_nil. exact Hnone.
  - rewrite replaceAll_cons.
    destruct (matchToken (c :: l)) as [[b r]|] eqn:E.
    + pose proof (f_noCloseAhead _ b r (replaceAll f r) Hg E) as Hz.
      apply matchToken_inv in E as (E & Hne & Hb). rewrite E in Hnone.
      apply (matchToken_context x b r); assumption.
    + change (x ++ c :: replaceAll f l) with (x ++ [c] ++ replaceAll f l).
      rewrite app_assoc. apply IH.
      * exact (good_tail _ _ Hg E).
      * destruct x; discriminate.
      * rewrite <- app_assoc. exact Hnone.
Qed.

Lemma replaceAll_twice n : ∀ l,
  length l ≤ n → good l → replaceAll f (replaceAll f l) = replaceAll f l.
Proof.
  induction n as [|n IH]; intros l Hlen Hg.
  - destruct l; [|cbn in Hlen; lia]. rewrite !replaceAll_nil. reflexivity.
  - destruct l as [|c l]; [rewrite !replaceAll_nil; reflexivity|].
    rewrite (replaceAll_cons f c l).
    destruct (matchToken (c :: l)) as [[b r]|] eqn:E.
    + pose proof (f_plain _ b r Hg E) as Hf.
      pose proof (good_rest _ b r Hg E) as Hr.
      apply matchToken_inv in E as (E & Hne & Hb).
      assert (IHr : replaceAll f (replaceAll f r) = replaceAll f r).
      { apply IH; [|exact Hr].
        apply (f_equal length) in E. unfold token in E.
        rewrite !length_app in E. cbn in E, Hlen. lia. }
      destruct Hf as [Hf|(_ & _ & Hl & Hs)].
      * rewrite Hf.
        rewrite (replaceAll_match f _ b (replaceAll f r))
          by (apply matchToken_token; assumption).
        rewrite Hf, IHr. reflexivity.
      * rewrite replaceAll_inert by assumption. rewrite IHr. reflexivity.
    + rewrite replaceAll_cons.
      pose proof (replaceAll_context l [c] (good_tail _ _ Hg E) ltac:(discriminate) E)
        as Hn.
      cbn [app] in Hn. rewrite Hn.
      rewrite IH; [reflexivity|cbn in Hlen; lia|exact (good_tail _ _ Hg E)].
Qed.

End Idempotence.

(** C7, as amended. Rendering cuts every template into its tokens (the
    matches of [{{body}}], found from left to right, the body not empty and
    without closing brace) and the characters between them; a character is
    copied, which happens only where no token begins, and a token is
    replaced by its resolution. Every body is a name followed by further
    pieces, each introduced by a [|], and is resolved as follows: the body
    is split at every [|] and the pieces are trimmed; the value read from
    the record under the name is its own field or, failing that, what every
    object inherits under that name; if it is a non-empty string or a value
    that is not a string, its string form is substituted; otherwise, if
    there is a first further piece and it is not empty once trimmed, it is
    substituted with one leading and one trailing quote removed (pieces
    after it are ignored); otherwise the token is left unchanged. In
    particular the three renderings given by the specification hold. *)
Theorem render_resolves_token data :
  (∀ template,
     chars (replaceVariables template data)
     = flat_map (outputOf (replacer data)) (segments (chars template))
     ∧ flat_map sourceOf (segments (chars template)) = chars template
     ∧ (∀ body, Tok body ∈ segments (chars template) →
          body ≠ [] ∧ (closeBrace ∉ body))
     ∧ (∀ before c after,
          segments (chars template) = before ++ Lit c :: after →
          matchToken (c :: flat_map sourceOf after) = None))
  ∧ (∀ body, ∃ name more,
       body = tokenBody name more ∧ Forall (fun q => pipe ∉ q) (name :: more))
  ∧ (∀ name more,
       Forall (fun q => pipe ∉ q) (name :: more) →
       let unresolved := token (tokenBody name more) in
       let fallback :=
         match more with
         | fb :: _ => if truthy (trim fb) then stripQuotes (trim fb) else unresolved
         | [] => unresolved
         end in
       replacer data (tokenBody name more)
       = match getProperty data (text (trim name)) with
         | Some (JString (String c s)) => chars (String c s)
         | Some (JOther rendering) => chars rendering
         | _ => fallback
         end)
  ∧ replaceVariables "Hi {{name}}" {["name" := JString "Ann"]} = "Hi Ann"
  ∧ replaceVariables ("Hi {{name|" +:+ quoted "Friend" +:+ "}}") ∅ = "Hi Friend"
  ∧ replaceVariables "Hi {{name}}" ∅ = "Hi {{name}}".
Proof.
  split; [|split; [|split; [|repeat split; reflexivity]]].
  - intros template. split; [apply render_segments|].
    split; [apply segments_source|]. split; [apply segments_tok|apply segments_lit].
  - intros body. destruct (split_join pipe body) as (p & ps & _ & Hb & Hf).
    exists p, ps. split; [exact Hb|exact Hf].
  - intros name more Hpieces. cbv zeta.
    rewrite replacer_pieces by exact Hpieces. reflexivity.
Qed.

Lemma render_resolves_token_witness :
  replaceVariables
    (text (chars "Dear " ++ token (tokenBody (chars " title ") [chars " 'Sir' "; chars "Madam"])
           ++ chars ", {{name}}"))
    {["name" := JString "Ann"]}
  = "Dear Sir, Ann".
Proof.
  destruct (render_resolves_token {["name" := JString "Ann"]}) as (H & _ & Hrule & _).
  destruct (H (text (chars "Dear "
                     ++ token (tokenBody (chars " title ") [chars " 'Sir' "; chars "Madam"])
                     ++ chars ", {{name}}"))) as (Hout & _).
  apply (f_equal text) in Hout. rewrite text_chars in Hout. rewrite Hout.
  change (segments _)
    with ([Lit "D"; Lit "e"; Lit "a"; Lit "r"; Lit " ";
           Tok (tokenBody (chars " title ") [chars " 'Sir' "; chars "Madam"]);
           Lit ","; Lit " "; Tok (tokenBody (chars "name") [])]%char).
  cbn [flat_map outputOf].
  rewrite (Hrule (chars " title ") [chars " 'Sir' "; chars "Madam"]),
          (Hrule (chars "name") []).
  - reflexivity.
  - repeat constructor; vm_compute; intros Hin;
      repeat (apply elem_of_cons in Hin as [Hin|Hin]; [discriminate|]);
      exact (not_elem_of_nil _ Hin).
  - repeat constructor; vm_compute; intros Hin;
      repeat (apply elem_of_cons in Hin as [Hin|Hin]; [discriminate|]);
      exact (not_elem_of_nil _ Hin).
Defined.

(** C7 as stated fails: the body is split at every [|], not at the first
    one only, so a fallback that contains a [|] is cut there. *)
Lemma render_split_counterexample :
  replaceVariables "Dear {{name|Sir|Madam}}" ∅ = "Dear Sir"
  ∧ specRender "Dear {{name|Sir|Madam}}" ∅ = "Dear Sir|Madam"
  ∧ replaceVariables "Dear {{name|Sir|Madam}}" ∅
    ≠ specRender "Dear {{name|Sir|Madam}}" ∅.
Proof. split; [reflexivity|]. split; [reflexivity|]. discriminate. Qed.

(** C8, as amended. Rendering is single-pass: the output is the
    concatenation, over the tokens and the characters of the template, of
    the character itself or of the text substituted for the token, which is
    copied and not scanned again by the same call. A second rendering with
    the same record gives the same text whenever each text the first
    rendering substitutes for a token of the template (the string form of a
    value, or a fallback) is inert: not empty, not beginning with a closing
    brace, not ending with an opening brace, and without two opening braces
    in a row. *)
Theorem render_single_pass_and_idempotent_on_plain_values data :
  (∀ template,
     chars (replaceVariables template data)
     = flat_map (outputOf (replacer data)) (segments (chars template)))
  ∧ (∀ template,
       (∀ body, Tok body ∈ segments (chars template) →
          replacer data body = token body ∨ inert (replacer data body)) →
       replaceVariables (replaceVariables template data) data
       = replaceVariables template data).
Proof.
  split; [intros template; apply render_segments|].
  intros template Htokens.
  rewrite !replaceVariables_eq, chars_text. f_equal.
  apply (replaceAll_twice (replacer data)
           (fun l => ∀ body, Tok body ∈ segments l →
                       replacer data body = token body ∨ inert (replacer data body)))
    with (n := length (chars template)); [| | |lia|exact Htokens].
  - intros c l Hg Hnone body Hin. apply Hg.
    rewrite segments_cons, Hnone. right. exact Hin.
  - intros l b r Hg Hm body Hin. apply Hg.
    rewrite (segments_match l b r Hm). right. exact Hin.
  - intros l b r Hg Hm. apply Hg.
    rewrite (segments_match l b r Hm). left.
Qed.

Lemma render_idempotent_witness :
  replaceVariables
    (replaceVariables "Hi {{name|Friend}}, {{constructor}} {{city}}!"
       {["name" := JString ""]})
    {["name" := JString ""]}
  = replaceVariables "Hi {{name|Friend}}, {{constructor}} {{city}}!"
      {["name" := JString ""]}.
Proof.
  apply (proj2 (render_single_pass_and_idempotent_on_plain_values
                  {["name" := JString ""]})).
  change (segments (chars "Hi {{name|Friend}}, {{constructor}} {{city}}!"))
    with ([Lit "H"; Lit "i"; Lit " "; Tok (chars "name|Friend"); Lit ","; Lit " ";
           Tok (chars "constructor"); Lit " "; Tok (chars "city"); Lit "!"]%char).
  intros body Hin.
  repeat (apply elem_of_cons in Hin as [Hin|Hin]; [try discriminate|]);
    [| | |inversion Hin]; injection Hin as ->.
  - right. change (replacer _ (chars "name|Friend")) with (chars "Friend").
    repeat split; try discriminate.
    intros a b Hv. apply (f_equal (fun l => bool_decide (openBrace ∈ l))) in Hv.
    rewrite (bool_decide_eq_true_2 (openBrace ∈ a ++ openBrace :: openBrace :: b)) in Hv
      by (apply elem_of_app; right; left).
    vm_compute in Hv. discriminate.
  - right.
    change (replacer _ (chars "constructor"))
      with (chars "function Object() { [native code] }").
    repeat split; try discriminate.
    intros a b Hv.
    assert (Hfind : ∀ v a b, v = a ++ openBrace :: openBrace :: b →
              TemplateTools.includes [openBrace; openBrace] v = true).
    { clear. intros v a. revert v. induction a as [|c a IH]; intros v b ->.
      - cbn. rewrite !bool_decide_eq_true_2 by reflexivity. reflexivity.
      - cbn [app TemplateTools.includes]. rewrite (IH _ b eq_refl).
        apply orb_true_r. }
    apply Hfind in Hv. vm_compute in Hv. discriminate.
  - left. reflexivity.
Defined.

(** C8 as stated fails: a value that contains token syntax is expanded by a
    second rendering with the same record. *)
Lemma render_twice_counterexample :
  let data : EmailHelpers.EmailRecord :=
    {["greeting" := JString "{{name}}"; "name" := JString "Ann"]} in
  replaceVariables "{{greeting}}" data = "{{name}}"
  ∧ replaceVariables (replaceVariables "{{greeting}}" data) data = "Ann"
  ∧ replaceVariables (replaceVariables "{{greeting}}" data) data
    ≠ replaceVariables "{{greeting}}" data.
Proof.
  cbv zeta. split; [reflexivity|]. split; [reflexivity|]. discriminate.
Qed.

(** None of the four conditions on a substituted text can be dropped: a
    second rendering differs from the first when a value has two opening
    braces in a row, ends with an opening brace, begins with a closing
    brace, or has the empty text as its string form (as an empty array
    has); the last case shows the same for a fallback with two opening
    braces in a row. *)
Example render_twice_needs_inert_texts :
  let twice t d := replaceVariables (replaceVariables t d) d in
  (replaceVariables "{{v}}x}}" {["v" := JString "{{"; "x" := JString "Ann"]} = "{{x}}"
   ∧ twice "{{v}}x}}" {["v" := JString "{{"; "x" := JString "Ann"]} = "Ann")
  ∧ (replaceVariables "{{v}}{x}}" {["v" := JString "{"; "x" := JString "Ann"]} = "{{x}}"
     ∧ twice "{{v}}{x}}" {["v" := JString "{"; "x" := JString "Ann"]} = "Ann")
  ∧ (replaceVariables "{{x}{{v}}" {["v" := JString "}"; "x" := JString "Ann"]} = "{{x}}"
     ∧ twice "{{x}{{v}}" {["v" := JString "}"; "x" := JString "Ann"]} = "Ann")
  ∧ (replaceVariables "{{x}{{v}}}" {["v" := JOther ""; "x" := JString "Ann"]} = "{{x}}"
     ∧ twice "{{x}{{v}}}" {["v" := JOther ""; "x" := JString "Ann"]} = "Ann")
  ∧ (replaceVariables "{{a|{{x}}}}" {["x" := JString "Ann"]} = "{{x}}"
     ∧ twice "{{a|{{x}}}}" {["x" := JString "Ann"]} = "Ann").
Proof. cbv zeta. repeat split; reflexivity. Qed.

(** * Further properties *)

(** ** Status, cleanup and submission together *)

(** X1. For every store and every non-empty id the store holds, the progress
    the status endpoint reports is 0 when the batch has no results and 100
    otherwise: every stored result is a success or a failure, so all of them
    count as completed and no value in between is ever reported. *)
Theorem status_progress_zero_or_full store id b :
  jsTruthy id = true → store !! id = Some b →
  st_progress (Status.handler GET (QString id) store)
  = Some (match results b with [] => 0 | _ => 100 end)%Z.
Proof.
  intros Hid Hb. unfold Status.handler, getBatchResults.
  rewrite decide_True by reflexivity. rewrite Hid, Hb.
  cbn -[percent]. f_equal. rewrite completedRecords_all.
  destruct (results b) as [|r l]; [reflexivity|].
  rewrite decide_True by (cbn; lia). apply percent_full. cbn; lia.
Qed.

Lemma status_progress_witness :
  st_progress (Status.handler GET (QString "b1") pendingStore) = Some 0%Z.
Proof.
  exact (status_progress_zero_or_full pendingStore "b1" (createdBatch 17)
           eq_refl eq_refl).
Defined.

(** X2. Cleanup followed by a status request, for a non-empty id: a batch
    created more than 24 hours before the cleanup is answered with 404
    afterwards; a batch created at most 24 hours before it is answered
    exactly as without the cleanup; an id the store does not hold stays
    absent. *)
Theorem cleanup_then_status now store id :
  jsTruthy id = true →
  (∀ b, store !! id = Some b → (now - createdAt b > cutoff)%Z →
     Status.handler GET (QString id) (cleanupOldBatches now store)
     = failure 404 "Batch not found or expired")
  ∧ (∀ b, store !! id = Some b → (now - createdAt b ≤ cutoff)%Z →
     Status.handler GET (QString id) (cleanupOldBatches now store)
     = Status.handler GET (QString id) store)
  ∧ (store !! id = None → cleanupOldBatches now store !! id = None).
Proof.
  intros Hid. unfold Status.handler, getBatchResults, cleanupOldBatches.
  rewrite decide_True by reflexivity. rewrite Hid.
  split; [|split].
  - intros b Hb Hold.
    rewrite (proj2 (map_lookup_filter_None _ _ _)); [reflexivity|].
    right. intros b' Hb'. rewrite Hb in Hb'. injection Hb' as <-. cbn. lia.
  - intros b Hb Hnew.
    rewrite (proj2 (map_lookup_filter_Some _ store id b)); [rewrite Hb; reflexivity|].
    split; [exact Hb|cbn; lia].
  - intros Hn. apply map_lookup_filter_None. left. exact Hn.
Qed.

Lemma cleanup_then_status_witness :
  Status.handler GET (QString "b1") (cleanupOldBatches 86400018 pendingStore)
  = failure 404 "Batch not found or expired".
Proof.
  apply (proj1 (cleanup_then_status 86400018 pendingStore "b1" eq_refl)
           (createdBatch 17)).
  - reflexivity.
  - reflexivity.
Defined.




(** ** The background task as a whole *)




Section WholeRun.
Variable provider : nat → list Payload → ProviderReply.
Variable recipients : list EmailRecord.
Variables subject htmlContent textContent fromEmail : string.
Variable fromName : option string.
Variable P : EmailRecord → EmailResult → Prop.

Local Abbreviation run :=
  (loop provider recipients subject htmlContent textContent fromEmail fromName).
Local Abbreviation body :=
  (loopBody provider recipients subject htmlContent textContent fromEmail fromName).
Local Abbreviation render := (personalize subject htmlContent textContent).

(** Every call pairs the recipients of its chunk with their outcomes. *)
Hypothesis chunk_paired : ∀ k chunk,
  Forall2 P chunk (sendEmailBatch (provider k) (map render chunk) fromEmail fromName).2.



End WholeRun.













(** X7. The background task touches no batch but its own: every other id
    of the store maps to what it mapped to before. When the store does not
    hold the task's id, the task leaves the store as it is and is finished
    before its first step, so nothing is sent; when it does, the batch keeps
    its creation time. *)
Theorem task_touches_only_its_batch provider recipients subject htmlContent
    textContent fromEmail fromName batchId store :
  (∀ other, other ≠ batchId →
     processBatchAsync provider recipients subject htmlContent textContent
       fromEmail fromName batchId store !! other = store !! other)
  ∧ (store !! batchId = None →
     processBatchAsync provider recipients subject htmlContent textContent
       fromEmail fromName batchId store = store
     ∧ ∀ k, afterSteps provider recipients subject htmlContent textContent
              fromEmail fromName batchId store k = (store, Finished))
  ∧ (∀ batch, store !! batchId = Some batch →
     ∃ b, processBatchAsync provider recipients subject htmlContent textContent
            fromEmail fromName batchId store !! batchId = Some b
          ∧ createdAt b = createdAt batch).
Proof.
  unfold processBatchAsync. split; [|split].
  - intros other Hne. destruct (store !! batchId); [|reflexivity].
    apply lookup_insert_ne. congruence.
  - intros Hn. rewrite Hn. split; [reflexivity|].
    intros k. unfold afterSteps, startTask. rewrite Hn.
    induction k as [|k IH]; [reflexivity|]. rewrite Nat.iter_succ, IH. reflexivity.
  - intros batch ->. eexists. rewrite lookup_insert_eq. split; reflexivity.
Qed.

Lemma task_touches_only_its_batch_witness :
  processBatchAsync acceptAll demoRecipients "Hi" "<p>Hi</p>" ""
    "desk@example.org" None "b2" pendingStore !! "b1"
  = pendingStore !! "b1".
Proof.
  apply (proj1 (task_touches_only_its_batch acceptAll demoRecipients "Hi" "<p>Hi</p>" ""
                  "desk@example.org" None "b2" pendingStore)).
  discriminate.
Defined.

Lemma includesAt_noreply f : includesAt ("noreply@" +:+ f) = true.
Proof.
  unfold includesAt. apply bool_decide_eq_true. cbn.
  do 7 right. left.
Qed.

(** X8. The sender address an accepted submission hands to the background
    task always contains an at sign: it is the configured address
    (FROM_EMAIL, or NEXT_PUBLIC_FROM_EMAIL when that is unset or empty) when
    the configured value contains one, and noreply@ followed by the
    configured value when it does not. *)
Theorem launched_sender_is_an_address body env now rnd store resp store' launched :
  Send.handler POST body env now rnd store = (resp, store', Some launched) →
  includesAt (l_fromEmail launched) = true
  ∧ ∃ f, orElse (FROM_EMAIL env) (NEXT_PUBLIC_FROM_EMAIL env) = Some f
         ∧ jsTruthy f = true
         ∧ l_fromEmail launched = (if includesAt f then f else "noreply@" +:+ f).
Proof.
  unfold Send.handler.
  destruct (decide (POST ≠ POST)) as [ne|_]; [exfalso; apply ne; reflexivity|].
  destruct (req_recipients body) as [[|r0 l]|]; try (intros [= _ _ ?]; discriminate).
  destruct (negb (optTruthy (req_subject body)) || negb (optTruthy (req_htmlContent body)));
    [intros [= _ _ ?]; discriminate|].
  destruct (orElse (FROM_EMAIL env) (NEXT_PUBLIC_FROM_EMAIL env)) as [f|] eqn:Ef;
    cbn [optTruthy negb]; [|intros [= _ _ ?]; discriminate].
  destruct (jsTruthy f) eqn:Hf; cbn [negb]; [|intros [= _ _ ?]; discriminate].
  destruct (decide (1000 < length (r0 :: l))); [intros [= _ _ ?]; discriminate|].
  intros [= <- <- <-]. cbn [l_fromEmail]. split.
  - destruct (includesAt f) eqn:E; [exact E|apply includesAt_noreply].
  - exists f. auto.
Qed.

Lemma launched_sender_witness :
  ∃ launched,
    (Send.handler POST demoBody
       {| FROM_EMAIL := None; NEXT_PUBLIC_FROM_EMAIL := Some "example.org" |}
       17 "k3x9" ∅).2 = Some launched
    ∧ l_fromEmail launched = "noreply@example.org".
Proof.
  destruct (Send.handler POST demoBody
              {| FROM_EMAIL := None; NEXT_PUBLIC_FROM_EMAIL := Some "example.org" |}
              17 "k3x9" ∅) as [[resp store'] [launched|]] eqn:E;
    [|vm_compute in E; discriminate].
  exists launched. split; [reflexivity|].
  destruct (launched_sender_is_an_address _ _ _ _ _ _ _ _ E) as (_ & f & Hf & _ & ->).
  vm_compute in Hf. injection Hf as <-. reflexivity.
Defined.


(** X9. The variable named email always resolves to the address the message
    is sent to: in a subject pre{{email}}post whose part pre has no opening
    brace, for a recipient with a non-empty address, the personalised
    subject is pre, then that address, then the rendering of post, and the
    message goes to the same address, whatever other fields the recipient
    has. *)
Theorem email_variable_is_the_recipient_address htmlContent textContent r pre post :
  (openBrace ∉ pre) → email r ≠ "" →
  let m := personalize (Js.text (pre ++ token (chars "email") ++ post))
             htmlContent textContent r in
  to m = email r
  ∧ subjectLine m
    = Js.text (pre ++ chars (email r)
               ++ chars (replaceVariables (Js.text post) (asData r))).
Proof.
  intros Hpre Hne. cbv zeta. split; [reflexivity|]. cbn [subjectLine personalize].
  rewrite !replaceVariables_eq, !chars_text.
  rewrite replaceAll_literal by exact Hpre.
  rewrite (replaceAll_match _ _ (chars "email") post).
  - rewrite replacer_no_pipe.
    + change (Js.text (trim (chars "email"))) with "email".
      unfold asData, getProperty. rewrite lookup_insert_eq.
      destruct (email r); [congruence|reflexivity].
    + vm_compute. intros Hin.
      repeat (apply elem_of_cons in Hin as [Hin|Hin]; [discriminate|]).
      exact (not_elem_of_nil _ Hin).
  - apply matchToken_token; [discriminate|].
    vm_compute. intros Hin.
    repeat (apply elem_of_cons in Hin as [Hin|Hin]; [discriminate|]).
    exact (not_elem_of_nil _ Hin).
Qed.

Lemma email_variable_witness :
  subjectLine (personalize "For {{email}}!" "<p>Hi</p>" ""
                 {| email := "ann@example.org";
                    fields := {["name" := JString "Ann"]} |})
  = "For ann@example.org!".
Proof.
  refine (proj2 (email_variable_is_the_recipient_address "<p>Hi</p>" ""
                   {| email := "ann@example.org";
                      fields := {["name" := JString "Ann"]} |}
                   (Js.chars "For ") (Js.chars "!") _ _)).
  - vm_compute. intros Hin.
    repeat (apply elem_of_cons in Hin as [Hin|Hin]; [discriminate|]).
    exact (not_elem_of_nil _ Hin).
  - discriminate.
Defined.


(** ** The other status endpoint and the shared storage module *)

(** X10. The status endpoint that reads the map kept on globalThis answers
    every request exactly as the status endpoint that asks the send module,
    when both see the same map. When no map was on globalThis at load time
    it reads a fresh empty map, and answers every well-formed request with
    404. *)
Theorem status_variants_agree_on_one_map method batchId :
  (∀ store, StatusGlobal.handler (Some store) method batchId
            = Status.handler method batchId store)
  ∧ (∀ id, method = GET → batchId = QString id → jsTruthy id = true →
       StatusGlobal.handler None method batchId
       = failure 404 "Batch not found or expired").
Proof.
  split.
  - intros store. unfold StatusGlobal.handler, Status.handler,
      StatusGlobal.batchResults, Send.getBatchResults.
    destruct (decide (method = GET)); [|reflexivity].
    destruct batchId as [|id|l]; try reflexivity.
    destruct (jsTruthy id); [|reflexivity].
    change (default ∅ (Some store)) with store.
    destruct (store !! id) as [[]|]; reflexivity.
  - intros id -> -> Hid. unfold StatusGlobal.handler, StatusGlobal.batchResults.
    rewrite decide_True by reflexivity. rewrite Hid.
    change (default ∅ None) with (∅ : Store).
    rewrite lookup_empty. reflexivity.
Qed.

Lemma status_variants_witness :
  StatusGlobal.handler None GET (QString "batch_17_k3x9")
  = failure 404 "Batch not found or expired".
Proof.
  exact (proj2 (status_variants_agree_on_one_map GET (QString "batch_17_k3x9"))
           "batch_17_k3x9" eq_refl eq_refl eq_refl).
Defined.

(** X11. The shared storage module: reading an id just after writing it
    gives the data written; writing one id leaves what is read under every
    other id unchanged; a write overwrites an earlier write of the same
    id. *)
Theorem batch_store_get_after_set batchId data store :
  BatchStore.getBatchResults batchId (BatchStore.setBatchResults batchId data store)
  = Some data
  ∧ (∀ other, other ≠ batchId →
       BatchStore.getBatchResults other (BatchStore.setBatchResults batchId data store)
       = BatchStore.getBatchResults other store)
  ∧ (∀ earlier,
       BatchStore.setBatchResults batchId data
         (BatchStore.setBatchResults batchId earlier store)
       = BatchStore.setBatchResults batchId data store).
Proof.
  unfold BatchStore.getBatchResults, BatchStore.setBatchResults. split; [|split].
  - rewrite lookup_insert_eq. destruct data; reflexivity.
  - intros other Hne. rewrite lookup_insert_ne by congruence. reflexivity.
  - intros earlier. apply insert_insert_eq.
Qed.

Lemma batch_store_get_after_set_witness :
  BatchStore.getBatchResults "b1"
    (BatchStore.setBatchResults "b2" (createdBatch 20) pendingStore)
  = BatchStore.getBatchResults "b1" pendingStore.
Proof.
  apply (proj1 (proj2 (batch_store_get_after_set "b2" (createdBatch 20) pendingStore))).
  discriminate.
Defined.





Lemma getBatchResults_lookup id store :
  BatchStore.getBatchResults id store = store !! id.
Proof.
  unfold BatchStore.getBatchResults. destruct (store !! id) as [[]|]; reflexivity.
Qed.

(** X13. The cleanup of the shared storage module keeps exactly the batches
    created at most 24 hours before the given time, unchanged; a cleanup
    after an earlier cleanup leaves what the later cleanup alone would
    leave; and it removes the same batches as the cleanup of the send
    module. *)
Theorem batch_store_cleanup now store :
  (∀ id b,
     BatchStore.getBatchResults id (BatchStore.cleanupOldBatches now store) = Some b
     ↔ BatchStore.getBatchResults id store = Some b
       ∧ (now - createdAt b ≤ 24 * 60 * 60 * 1000)%Z)
  ∧ (∀ later, (now ≤ later)%Z →
       BatchStore.cleanupOldBatches later (BatchStore.cleanupOldBatches now store)
       = BatchStore.cleanupOldBatches later store)
  ∧ BatchStore.cleanupOldBatches now store = Send.cleanupOldBatches now store.
Proof.
  split; [|split].
  - intros id b. rewrite !getBatchResults_lookup. unfold BatchStore.cleanupOldBatches.
    rewrite map_lookup_filter_Some. cbn. split; intros [H1 H2]; (split; [exact H1|lia]).
  - intros later Hle. unfold BatchStore.cleanupOldBatches.
    apply map_eq. intros id. apply option_eq. intros b.
    rewrite !map_lookup_filter_Some. cbn. split.
    + intros [[H1 _] H2]. split; assumption.
    + intros [H1 H2]. repeat split; try assumption. lia.
  - reflexivity.
Qed.

Lemma batch_store_cleanup_witness :
  BatchStore.cleanupOldBatches 86400018 (BatchStore.cleanupOldBatches 20 pendingStore)
  = BatchStore.cleanupOldBatches 86400018 pendingStore.
Proof.
  apply (proj1 (proj2 (batch_store_cleanup 20 pendingStore))). lia.
Defined.


(** ** Address validation *)

Lemma spanAddress_inv l a r :
  TemplateTools.spanAddress l = (a, r) →
  l = a ++ r ∧ Forall (fun c => TemplateTools.isAddressChar c = true) a.
Proof.
  revert a r. induction l as [|c l IH]; intros a r; cbn.
  - intros [= <- <-]. split; [reflexivity|constructor].
  - destruct (TemplateTools.isAddressChar c) eqn:Hc.
    + destruct (TemplateTools.spanAddress l) as [a' r'] eqn:E. intros [= <- <-].
      destruct (IH a' r' eq_refl) as [-> Ha]. split; [reflexivity|].
      constructor; assumption.
    + intros [= <- <-]. split; [reflexivity|constructor].
Qed.

Lemma spanAddress_app a c r :
  Forall (fun c => TemplateTools.isAddressChar c = true) a →
  TemplateTools.isAddressChar c = false →
  TemplateTools.spanAddress (a ++ c :: r) = (a, c :: r).
Proof.
  intros Ha Hc. induction Ha as [|x a Hx _ IH]; cbn.
  - rewrite Hc. reflexivity.
  - rewrite Hx, IH. reflexivity.
Qed.

Lemma dotBeforeLast_split l :
  TemplateTools.dotBeforeLast l = true ↔ ∃ B C, l = B ++ "."%char :: C ∧ C ≠ [].
Proof.
  induction l as [|c l IH].
  - cbn. split; [discriminate|]. intros (B & C & H & _). destruct B; discriminate.
  - cbn [TemplateTools.dotBeforeLast]. destruct l as [|d l].
    + split; [discriminate|]. intros (B & C & H & Hne).
      destruct B as [|b B]; [injection H as _ <-; congruence|].
      injection H as _ H. destruct B; discriminate.
    + rewrite orb_true_iff, bool_decide_eq_true, IH. split.
      * intros [->|(B & C & -> & Hne)].
        -- exists [], (d :: l). split; [reflexivity|discriminate].
        -- exists (c :: B), C. split; [reflexivity|exact Hne].
      * intros (B & C & H & Hne). destruct B as [|b B].
        -- injection H as -> _. left. reflexivity.
        -- injection H as _ H. right. exists B, C. split; assumption.
Qed.

Lemma emailRegexTest_spec l :
  TemplateTools.emailRegexTest l = true ↔
  ∃ A B C, l = A ++ "@"%char :: B ++ "."%char :: C
           ∧ A ≠ [] ∧ B ≠ [] ∧ C ≠ []
           ∧ Forall (fun c => TemplateTools.isAddressChar c = true) (A ++ B ++ C).
Proof.
  unfold TemplateTools.emailRegexTest. split.
  - destruct (TemplateTools.spanAddress l) as [a r] eqn:E.
    apply spanAddress_inv in E as [-> Ha].
    destruct a as [|a0 a]; [discriminate|]. destruct r as [|c rest]; [discriminate|].
    rewrite !andb_true_iff, bool_decide_eq_true. intros [[-> Hall] Hdot].
    destruct rest as [|b0 tl]; [discriminate|].
    apply dotBeforeLast_split in Hdot as (B & C & -> & Hne).
    exists (a0 :: a), (b0 :: B), C.
    split; [reflexivity|]. repeat (split; [discriminate || assumption|]).
    pose proof (proj1 (forallb_forall _ _) Hall) as Hall'. clear Hall.
    rename Hall' into Hall. apply Forall_app. split; [exact Ha|].
    apply Forall_forall. intros x Hx. apply Hall. apply list_elem_of_In.
    change (b0 :: B ++ "."%char :: C) with ((b0 :: B) ++ "."%char :: C).
    apply elem_of_app in Hx as [Hx|Hx]; apply elem_of_app; [left; exact Hx|].
    right. right. exact Hx.
  - intros (A & B & C & -> & HA & HB & HC & Hall).
    apply Forall_app in Hall as [Ha Hall]. apply Forall_app in Hall as [Hb Hc].
    rewrite spanAddress_app by (exact Ha || reflexivity).
    destruct A as [|a0 A]; [congruence|].
    rewrite bool_decide_eq_true_2 by reflexivity. cbn [andb].
    apply andb_true_iff. split.
    + apply forallb_forall. intros x Hx. apply list_elem_of_In in Hx.
      apply elem_of_app in Hx as [Hx|Hx].
      * exact (proj1 (Forall_forall _ _) Hb x Hx).
      * apply elem_of_cons in Hx as [->|Hx]; [reflexivity|].
        exact (proj1 (Forall_forall _ _) Hc x Hx).
    + destruct B as [|b0 B]; [congruence|]. cbn [app].
      apply dotBeforeLast_split. exists B, C. split; [reflexivity|exact HC].
Qed.

(** X14. validateEmail accepts a string exactly when, with the white space
    at its two ends removed, it reads A@B.C where A, B and C are non-empty
    and contain neither white space nor an at sign; the upload endpoint's
    own validateEmail gives the same verdict on every string. *)
Theorem validateEmail_accepts_exactly email :
  (TemplateTools.validateEmail email = true ↔
   ∃ A B C, trim (chars email) = A ++ "@"%char :: B ++ "."%char :: C
            ∧ A ≠ [] ∧ B ≠ [] ∧ C ≠ []
            ∧ Forall (fun c => TemplateTools.isAddressChar c = true) (A ++ B ++ C))
  ∧ Upload.validateEmail email = TemplateTools.validateEmail email.
Proof.
  unfold TemplateTools.validateEmail, Upload.validateEmail.
  destruct email as [|c s]; (split; [|reflexivity]).
  - split; [discriminate|]. intros (A & B & C & H & _). destruct A; discriminate.
  - apply emailRegexTest_spec.
Qed.

Lemma validateEmail_witness : TemplateTools.validateEmail " ann@mail.example.org " = true.
Proof.
  apply (proj2 (proj1 (validateEmail_accepts_exactly " ann@mail.example.org "))).
  exists (chars "ann"), (chars "mail.example"), (chars "org").
  split; [reflexivity|]. repeat (split; [discriminate|]).
  repeat constructor.
Defined.


(** ** Template inspection *)

Lemma matchAll_nil : TemplateTools.matchAll [] = [].
Proof. simp matchAll. reflexivity. Qed.

Lemma matchAll_cons c l' :
  TemplateTools.matchAll (c :: l')
  = match matchToken (c :: l') with
    | Some (body, rest) => token body :: TemplateTools.matchAll rest
    | None => TemplateTools.matchAll l'
    end.
Proof.
  simp matchAll.
  destruct (inspect (matchToken (c :: l'))) as [[[b r]|] e]; simp matchAll;
    rewrite e; reflexivity.
Qed.

(** A text in which the pattern has no match is copied as it is. *)
Lemma no_match_no_change f l :
  TemplateTools.matchAll l = [] → replaceAll f l = l.
Proof.
  induction l as [|c l IH]; intros H; [apply replaceAll_nil|].
  rewrite matchAll_cons in H. rewrite replaceAll_cons.
  destruct (matchToken (c :: l)) as [[b r]|]; [discriminate|].
  rewrite IH by exact H. reflexivity.
Qed.

Lemma indexOf_first v l :
  v ∈ l → ∃ k, TemplateTools.indexOf v l = Some k ∧ l !! k = Some v.
Proof.
  induction l as [|x l IH]; intros Hin; [inversion Hin|]. cbn.
  destruct (decide (x = v)) as [->|Hne].
  - exists 0. split; reflexivity.
  - apply elem_of_cons in Hin as [->|Hin]; [congruence|].
    destruct (IH Hin) as (k & -> & Hk). exists (S k). split; [reflexivity|exact Hk].
Qed.

Lemma firstOccurrences_elem v l :
  v ∈ TemplateTools.firstOccurrences l ↔ v ∈ l.
Proof.
  unfold TemplateTools.firstOccurrences. rewrite list_elem_of_fmap. split.
  - intros ([k x] & -> & Hin). apply list_elem_of_filter in Hin as [_ Hin].
    apply list_elem_of_lookup in Hin as [j Hj].
    rewrite list_lookup_imap in Hj.
    destruct (l !! j) as [y|] eqn:E; [|discriminate]. injection Hj as <- <-.
    apply list_elem_of_lookup. eauto.
  - intros Hin. destruct (indexOf_first v l Hin) as (k & Hk & Hl).
    exists (k, v). split; [reflexivity|]. apply list_elem_of_filter. split; [exact Hk|].
    apply list_elem_of_lookup. exists k. rewrite list_lookup_imap, Hl. reflexivity.
Qed.

Lemma firstOccurrences_NoDup l : NoDup (TemplateTools.firstOccurrences l).
Proof.
  unfold TemplateTools.firstOccurrences. apply NoDup_fmap_2_strong.
  - intros [k x] [j y] Hx Hy Heq. cbn in Heq. subst y.
    apply list_elem_of_filter in Hx as [Hx _]. apply list_elem_of_filter in Hy as [Hy _].
    cbn in Hx, Hy. congruence.
  - apply NoDup_filter. apply NoDup_alt. intros k j [a x] Hk Hj.
    rewrite list_lookup_imap in Hk, Hj.
    destruct (l !! k); [|discriminate]. destruct (l !! j); [|discriminate].
    cbn in Hk, Hj. congruence.
Qed.

Lemma no_variables_no_change template :
  TemplateTools.extractVariables template = [] →
  ∀ data, replaceVariables template data = template.
Proof.
  unfold TemplateTools.extractVariables.
  intros Hnil data. rewrite replaceVariables_eq.
  rewrite no_match_no_change; [apply text_chars|].
  destruct template as [|c s]; [apply matchAll_nil|].
  destruct (TemplateTools.matchAll (chars (String c s))) as [|m ms] eqn:E;
    [reflexivity|].
  exfalso.
  assert (Hin : TemplateTools.variableOf m
                ∈ TemplateTools.firstOccurrences
                    (map TemplateTools.variableOf (m :: ms))).
  { apply firstOccurrences_elem. left. }
  rewrite Hnil in Hin. inversion Hin.
Qed.

(** X15. extractVariables lists no name twice, and lists exactly the names
    of the tokens the template contains (the text of a token before its
    first bar, braces and outer white space removed). When it lists nothing,
    rendering the template leaves it unchanged, whatever the data. *)
Theorem extractVariables_lists_each_variable_once template :
  NoDup (TemplateTools.extractVariables template)
  ∧ (∀ v, v ∈ TemplateTools.extractVariables template ↔
          ∃ m, m ∈ TemplateTools.matchAll (chars template)
               ∧ v = TemplateTools.variableOf m)
  ∧ (TemplateTools.extractVariables template = [] →
     ∀ data, replaceVariables template data = template).
Proof.
  split; [|split]; [unfold TemplateTools.extractVariables..|].
  - destruct template; [constructor|apply firstOccurrences_NoDup].
  - intros v. destruct template as [|c s].
    + cbn. rewrite matchAll_nil. split; [intros H; inversion H|].
      intros (m & H & _). inversion H.
    + rewrite firstOccurrences_elem, list_elem_of_fmap. split.
      * intros (m & -> & Hm). eauto.
      * intros (m & Hm & ->). eauto.
  - apply no_variables_no_change.
Qed.

Lemma extractVariables_witness :
  replaceVariables "Dear customer, {{}} is not a token" {["name" := JString "Ann"]}
  = "Dear customer, {{}} is not a token".
Proof.
  apply (proj2 (proj2 (extractVariables_lists_each_variable_once
                         "Dear customer, {{}} is not a token"))).
  reflexivity.
Defined.

(** X16. validateTemplate calls a template valid exactly when every variable
    it uses is one of the available columns; the missing variables it
    reports are exactly the used variables that are not available columns;
    and when it warns that no variables were found, rendering the template
    leaves it unchanged, whatever the data. *)
Theorem validateTemplate_reports template availableColumns :
  let check := TemplateTools.validateTemplate template availableColumns in
  (TemplateTools.isValid check = true ↔
     ∀ v, v ∈ TemplateTools.extractVariables template → v ∈ availableColumns)
  ∧ (∀ v, v ∈ TemplateTools.missingVariables check ↔
          v ∈ TemplateTools.extractVariables template ∧ v ∉ availableColumns)
  ∧ (TemplateTools.noVariablesWarning ∈ TemplateTools.warnings check →
     ∀ data, replaceVariables template data = template).
Proof.
  cbv zeta. unfold TemplateTools.validateTemplate.
  cbn [TemplateTools.isValid TemplateTools.missingVariables TemplateTools.warnings].
  split; [|split].
  - rewrite bool_decide_eq_true, length_zero_iff_nil. split.
    + intros Hnil v Hv.
      destruct (decide (v ∈ availableColumns)) as [|Hn]; [assumption|].
      assert (Hin : v ∈ filter (fun v => v ∉ availableColumns)
                          (TemplateTools.extractVariables template))
        by (apply list_elem_of_filter; auto).
      rewrite Hnil in Hin. inversion Hin.
    + intros Hall.
      destruct (filter _ _) as [|v l] eqn:E; [reflexivity|]. exfalso.
      assert (Hin : v ∈ filter (fun v => v ∉ availableColumns)
                          (TemplateTools.extractVariables template))
        by (rewrite E; left).
      apply list_elem_of_filter in Hin as [Hn Hin]. exact (Hn (Hall v Hin)).
  - intros v. rewrite list_elem_of_filter. tauto.
  - intros Hw data.
    apply no_variables_no_change.
    apply elem_of_app in Hw as [Hw|Hw].
    + destruct (_ && _) in Hw; [|inversion Hw].
      apply list_elem_of_singleton in Hw. discriminate.
    + destruct (bool_decide _) eqn:E in Hw; [|inversion Hw].
      apply bool_decide_eq_true, length_zero_iff_nil in E. exact E.
Qed.

Lemma validateTemplate_witness :
  TemplateTools.isValid
    (TemplateTools.validateTemplate "Hi {{ name | friend }}, {{name}}" ["email"; "name"])
  = true.
Proof.
  apply (proj1 (validateTemplate_reports "Hi {{ name | friend }}, {{name}}"
                  ["email"; "name"])).
  intros v Hv. vm_compute in Hv.
  apply elem_of_cons in Hv as [->|Hv]; [|inversion Hv].
  right. left.
Defined.

(** X17. In previewTemplate a key of the sample data shadows the same key
    of the fallback data, also when the sample's value is empty or null:
    when every key of the fallback data is a key of the sample data, the
    preview is the rendering with the sample data alone. *)
Theorem preview_sample_shadows_fallback template sampleData fallbackData :
  dom fallbackData ⊆ dom sampleData →
  TemplateTools.previewTemplate template sampleData fallbackData
  = replaceVariables template sampleData.
Proof.
  intros Hdom. unfold TemplateTools.previewTemplate. f_equal.
  apply map_eq. intros k. rewrite lookup_union.
  destruct (sampleData !! k) as [v|] eqn:E.
  - destruct ((JString <$> fallbackData) !! k); reflexivity.
  - assert (Hk : fallbackData !! k = None).
    { apply not_elem_of_dom. intros Hin. apply Hdom in Hin.
      apply elem_of_dom in Hin as [v Hv]. congruence. }
    rewrite lookup_fmap, Hk. reflexivity.
Qed.

Lemma preview_sample_shadows_witness :
  TemplateTools.previewTemplate "Hi {{name}}" {["name" := JString ""]}
    {["name" := "friend"]}
  = "Hi {{name}}".
Proof.
  rewrite (preview_sample_shadows_fallback "Hi {{name}}" {["name" := JString ""]}
             {["name" := "friend"]}).
  - reflexivity.
  - rewrite !dom_singleton_L. reflexivity.
Defined.


(** ** The CSV parser *)

Lemma split_nonempty sep l : split sep l ≠ [].
Proof.
  destruct l as [|c l]; cbn; [discriminate|].
  destruct (decide (c = sep)); [discriminate|].
  destruct (split sep l); discriminate.
Qed.

Lemma parseCSVLoop_unquoted line : ∀ result current,
  (doubleQuote ∉ line) →
  FileParser.parseCSVLoop line result current false
  = result ++ match split FileParser.comma line with
              | p :: ps => trim (current ++ p) :: map trim ps
              | [] => []
              end.
Proof.
  induction line as [|c line IH]; intros result current Hq.
  - cbn. rewrite app_nil_r. reflexivity.
  - apply not_elem_of_cons in Hq as [Hc Hq].
    cbn [FileParser.parseCSVLoop split].
    rewrite decide_False by congruence.
    destruct (decide (c = FileParser.comma)) as [->|Hn].
    + rewrite bool_decide_eq_true_2 by reflexivity. cbn [andb negb].
      rewrite IH by exact Hq.
      destruct (split FileParser.comma line) as [|p ps] eqn:E;
        [exfalso; exact (split_nonempty _ _ E)|].
      rewrite <- app_assoc, app_nil_r. reflexivity.
    + rewrite bool_decide_eq_false_2 by exact Hn. cbn [andb].
      rewrite IH by exact Hq.
      destruct (split FileParser.comma line) as [|p ps] eqn:E;
        [exfalso; exact (split_nonempty _ _ E)|].
      rewrite <- app_assoc. reflexivity.
Qed.

Lemma parseCSVLoop_quoted q : ∀ result current,
  (doubleQuote ∉ q) →
  FileParser.parseCSVLoop (q ++ [doubleQuote]) result current true
  = result ++ [trim (current ++ q)].
Proof.
  induction q as [|c q IH]; intros result current Hq.
  - cbn. rewrite decide_True by reflexivity. cbn. rewrite app_nil_r. reflexivity.
  - apply not_elem_of_cons in Hq as [Hc Hq].
    cbn [app FileParser.parseCSVLoop].
    rewrite decide_False by congruence. cbn [negb]. rewrite andb_false_r.
    rewrite IH by exact Hq. rewrite <- app_assoc. reflexivity.
Qed.

(** X18. parseCSVLine on a line without double quotes gives the pieces
    between the commas, each with its outer white space removed; on a line
    that is one field in double quotes, without quotes inside, it gives that
    one field, commas included. *)
Theorem parseCSVLine_splits_at_unquoted_commas :
  (∀ line, (doubleQuote ∉ line) →
     FileParser.parseCSVLine line = map trim (split FileParser.comma line))
  ∧ (∀ q, (doubleQuote ∉ q) →
       FileParser.parseCSVLine (doubleQuote :: q ++ [doubleQuote]) = [trim q]).
Proof.
  split.
  - intros line Hq. unfold FileParser.parseCSVLine.
    rewrite parseCSVLoop_unquoted by exact Hq.
    destruct (split FileParser.comma line) as [|p ps] eqn:E;
      [exfalso; exact (split_nonempty _ _ E)|reflexivity].
  - intros q Hq. unfold FileParser.parseCSVLine.
    cbn [FileParser.parseCSVLoop]. rewrite decide_True by reflexivity.
    destruct (q ++ [doubleQuote]) as [|c l] eqn:E; [destruct q; discriminate|].
    cbn [andb negb]. rewrite <- E.
    rewrite parseCSVLoop_quoted by exact Hq. reflexivity.
Qed.

Lemma parseCSVLine_witness :
  FileParser.parseCSVLine (chars " ann@example.org , Ann ,Paris")
  = [chars "ann@example.org"; chars "Ann"; chars "Paris"].
Proof.
  rewrite (proj1 parseCSVLine_splits_at_unquoted_commas).
  - reflexivity.
  - vm_compute. intros Hin.
    repeat (apply elem_of_cons in Hin as [Hin|Hin]; [discriminate|]).
    exact (not_elem_of_nil _ Hin).
Defined.

Lemma filter_keeps_all {A} (P : A → Prop) `{∀ x, Decision (P x)} (l : list A) :
  Forall P l → filter P l = l.
Proof.
  induction 1 as [|x l Hx _ IH]; [reflexivity|].
  rewrite filter_cons, decide_True by exact Hx. rewrite IH. reflexivity.
Qed.

Lemma recordOf_someValue headers index line :
  FileParser.someValue (FileParser.recordOf headers index line) = true.
Proof.
  unfold FileParser.someValue, FileParser.recordOf. apply bool_decide_eq_true.
  exists "_rowIndex", (FileParser.CellNumber (index + 2)).
  split; [apply lookup_insert_eq|discriminate].
Qed.

(** X19. parseCsvContent reports Empty CSV file when the content has no
    non-blank line. Otherwise it reports no error, reads the headers from
    the first non-blank line, and returns one record per further non-blank
    line: the filter for records with some non-empty value never drops a
    record, because each record carries its row number, which for the k-th
    record (from 0) is k + 2. *)
Theorem parseCsvContent_keeps_every_data_line content :
  let parsed := FileParser.parseCsvContent content in
  match FileParser.contentLines content with
  | [] => parsed = {| FileParser.data := []; FileParser.headers := [];
                      FileParser.errors := ["Empty CSV file"] |}
  | first :: dataLines =>
      FileParser.errors parsed = []
      ∧ FileParser.headers parsed = map text (FileParser.parseCSVLine first)
      ∧ length (FileParser.data parsed) = length dataLines
      ∧ ∀ k record, FileParser.data parsed !! k = Some record →
          record !! "_rowIndex" = Some (FileParser.CellNumber (k + 2))
  end.
Proof.
  cbv zeta. unfold FileParser.parseCsvContent.
  destruct (FileParser.contentLines content) as [|first dataLines]; [reflexivity|].
  cbn [FileParser.errors FileParser.headers FileParser.data].
  rewrite filter_keeps_all.
  - split; [reflexivity|]. split; [reflexivity|]. split; [apply length_imap|].
    intros k record Hk. rewrite list_lookup_imap in Hk.
    destruct (dataLines !! k); [|discriminate]. injection Hk as <-.
    apply lookup_insert_eq.
  - apply Forall_forall. intros record Hin.
    apply list_elem_of_lookup in Hin as [k Hk]. rewrite list_lookup_imap in Hk.
    destruct (dataLines !! k); [|discriminate]. injection Hk as <-.
    apply recordOf_someValue.
Qed.


(** ** Finding the address column and validating parsed records *)

Lemma findExact_Some patterns headers found :
  FileParser.findExact patterns headers = Some found →
  found ∈ headers ∧ found ∈ patterns ∧ jsTruthy found = true.
Proof.
  induction patterns as [|p ps IH]; cbn; [discriminate|].
  destruct (list_find (fun header => header = p) headers) as [[k h]|] eqn:E.
  - apply list_find_Some in E as (Hk & -> & _).
    destruct (jsTruthy p) eqn:Ht.
    + intros [= <-]. split; [apply list_elem_of_lookup; eauto|]. split; [left|exact Ht].
    + intros H. destruct (IH H) as (? & ? & ?). split; [assumption|].
      split; [right; assumption|assumption].
  - intros H. destruct (IH H) as (? & ? & ?). split; [assumption|].
    split; [right; assumption|assumption].
Qed.

Lemma findExact_complete patterns headers p :
  p ∈ patterns → p ∈ headers → jsTruthy p = true →
  is_Some (FileParser.findExact patterns headers).
Proof.
  intros Hp Hh Ht. induction patterns as [|p0 ps IH]; [inversion Hp|]. cbn.
  destruct (list_find (fun header => header = p0) headers) as [[k h]|] eqn:E.
  - apply list_find_Some in E as (_ & -> & _).
    destruct (jsTruthy p0) eqn:Ht0; [eauto|].
    apply elem_of_cons in Hp as [->|Hp]; [congruence|]. exact (IH Hp).
  - apply elem_of_cons in Hp as [->|Hp]; [|exact (IH Hp)].
    exfalso. apply list_find_None in E.
    exact (proj1 (Forall_forall _ _) E p0 Hh eq_refl).
Qed.

Lemma findEmailColumn_Some headers h :
  FileParser.findEmailColumn headers = Some h → h ∈ headers ∧ jsTruthy h = true.
Proof.
  unfold FileParser.findEmailColumn.
  destruct (FileParser.findExact FileParser.emailPatterns headers) as [found|] eqn:E.
  - intros [= <-]. apply findExact_Some in E as (? & _ & ?). auto.
  - destruct (list_find _ headers) as [[k x]|] eqn:F; [|discriminate].
    intros [= <-]. apply list_find_Some in F as (Hk & Hm & _).
    split; [apply list_elem_of_lookup; eauto|].
    destruct x; [discriminate Hm|reflexivity].
Qed.

(** X20. findEmailColumn returns one of the given headers; it returns email
    whenever email is among them, wherever it stands; when it returns
    nothing, no header is one of the listed names or contains mail in any
    letter case; and whenever the upload endpoint's own finder returns a
    header, findEmailColumn returns one too. *)
Theorem findEmailColumn_finds_a_header headers :
  (∀ h, FileParser.findEmailColumn headers = Some h → h ∈ headers)
  ∧ ("email" ∈ headers → FileParser.findEmailColumn headers = Some "email")
  ∧ (FileParser.findEmailColumn headers = None →
     ∀ h, h ∈ headers →
       (h ∉ FileParser.emailPatterns) ∧ FileParser.mentionsMail h = false)
  ∧ (∀ h, Upload.findEmailColumn headers = Some h →
       is_Some (FileParser.findEmailColumn headers)).
Proof.
  split; [|split; [|split]].
  - intros h H. exact (proj1 (findEmailColumn_Some headers h H)).
  - intros Hin. unfold FileParser.findEmailColumn, FileParser.emailPatterns.
    cbn [FileParser.findExact].
    destruct (list_find (fun header => header = "email") headers) as [[k x]|] eqn:E.
    + apply list_find_Some in E as (_ & -> & _). reflexivity.
    + exfalso. apply list_find_None in E.
      exact (proj1 (Forall_forall _ _) E "email" Hin eq_refl).
  - unfold FileParser.findEmailColumn.
    destruct (FileParser.findExact FileParser.emailPatterns headers) eqn:E;
      [discriminate|].
    destruct (list_find _ headers) as [[k x]|] eqn:F; [discriminate|].
    intros _ h Hh. split.
    + intros Hp.
      assert (Ht : jsTruthy h = true).
      { unfold FileParser.emailPatterns in Hp.
        repeat (apply elem_of_cons in Hp as [->|Hp]; [reflexivity|]). inversion Hp. }
      destruct (findExact_complete _ headers h Hp Hh Ht) as [x Hx]. congruence.
    + apply list_find_None in F.
      pose proof (proj1 (Forall_forall _ _) F h Hh) as Hn.
      cbv beta in Hn.
      destruct (FileParser.mentionsMail h); [exfalso; exact (Hn eq_refl)|reflexivity].
  - intros h. unfold Upload.findEmailColumn.
    destruct (list_find _ headers) as [[k x]|] eqn:E; [|discriminate].
    apply list_find_Some in E as (Hk & Hx & _).
    destruct (jsTruthy x) eqn:Ht; [|discriminate]. intros [= <-].
    unfold FileParser.findEmailColumn.
    assert (Hp : x ∈ FileParser.emailPatterns).
    { unfold Upload.emailColumns in Hx. unfold FileParser.emailPatterns.
      repeat (apply elem_of_cons in Hx as [->|Hx];
              [repeat ((left; fail) || right)|]).
      inversion Hx. }
    destruct (findExact_complete FileParser.emailPatterns headers x Hp
                ltac:(apply list_elem_of_lookup; eauto) Ht) as [y ->].
    eauto.
Qed.

Lemma findEmailColumn_witness :
  FileParser.findEmailColumn ["Contact"; "Mail"; "email"] = Some "email".
Proof.
  apply (proj1 (proj2 (findEmailColumn_finds_a_header ["Contact"; "Mail"; "email"]))).
  do 2 right. left.
Defined.


Lemma tally_counts column l : ∀ t,
  let t' := foldl (FileParser.tallyRecord column) t l in
  FileParser.t_valid t'
  = FileParser.t_valid t + length (filter (fun ir => acceptedCell column ir.2 = true) l)
  ∧ FileParser.t_valid t' + FileParser.t_invalid t'
    = FileParser.t_valid t + FileParser.t_invalid t + length l
  ∧ length (FileParser.t_warnings t') + FileParser.t_valid t'
    = length (FileParser.t_warnings t) + FileParser.t_valid t + length l.
Proof.
  induction l as [|[k r] l IH]; intros t; cbv zeta.
  - cbn. lia.
  - cbn [foldl]. specialize (IH (FileParser.tallyRecord column t (k, r))).
    cbv zeta in IH. destruct IH as (H1 & H2 & H3).
    assert (Hstep :
      let t1 := FileParser.tallyRecord column t (k, r) in
      let a := if acceptedCell column r then 1 else 0 in
      FileParser.t_valid t1 = FileParser.t_valid t + a
      ∧ FileParser.t_valid t1 + FileParser.t_invalid t1
        = FileParser.t_valid t + FileParser.t_invalid t + 1
      ∧ length (FileParser.t_warnings t1) + FileParser.t_valid t1
        = length (FileParser.t_warnings t) + FileParser.t_valid t + 1
      ∧ length (filter (fun ir : nat * FileParser.Row => acceptedCell column ir.2 = true)
                  ((k, r) :: l))
        = a + length (filter (fun ir : nat * FileParser.Row =>
                                acceptedCell column ir.2 = true) l)).
    { cbv zeta. rewrite filter_cons. cbn [snd].
      destruct (acceptedCell column r) eqn:Ha.
      - rewrite decide_True by reflexivity.
        unfold acceptedCell in Ha. unfold FileParser.tallyRecord. cbn [snd fst].
        destruct (r !! column) as [[[|c s]|n]|]; try discriminate.
        change (TemplateTools.validateEmail (String c s))
          with (TemplateTools.emailRegexTest (trim (chars (String c s)))) in Ha.
        rewrite Ha. cbn. lia.
      - rewrite decide_False by discriminate.
        unfold acceptedCell in Ha. unfold FileParser.tallyRecord. cbn [snd fst].
        destruct (r !! column) as [[[|c s]|n]|];
          try (cbn; rewrite ?length_app; cbn; lia).
        change (TemplateTools.validateEmail (String c s))
          with (TemplateTools.emailRegexTest (trim (chars (String c s)))) in Ha.
        rewrite Ha. cbn. rewrite ?length_app. cbn. lia. }
    cbv zeta in Hstep. destruct Hstep as (S1 & S2 & S3 & S4).
    rewrite S4. cbn [length]. destruct (acceptedCell column r); lia.
Qed.

Lemma imap_pair_snd {A} (l : list A) : (imap pair l).*2 = l.
Proof.
  apply list_eq. intros k. rewrite list_lookup_fmap, list_lookup_imap.
  destruct (l !! k); reflexivity.
Qed.

Lemma filter_snd_length {A B} (P : B → Prop) `{∀ x, Decision (P x)} (l : list (A * B)) :
  length (filter (fun ir => P ir.2) l) = length (filter P (l.*2)).
Proof.
  induction l as [|[a b] l IH]; [reflexivity|].
  rewrite fmap_cons, !filter_cons. cbn [snd].
  destruct (decide (P b)); cbn; rewrite IH; reflexivity.
Qed.

(** X21. validateParsedData on a non-empty list of records: when an address
    column is found there is no error, the valid records are exactly the
    records whose cell in that column is a text validateEmail accepts, valid
    and invalid records add up to the number of records, there is one
    warning per invalid record plus one when there are more than 1000
    records, and the data is valid exactly when some record is valid. When
    no address column is found the data is invalid, the only error is the
    missing column, and nothing is counted. *)
Theorem validateParsedData_counts data headers :
  data ≠ [] →
  let v := FileParser.validateParsedData data headers in
  match FileParser.findEmailColumn headers with
  | Some column =>
      FileParser.emailColumn v = Some column
      ∧ FileParser.v_errors v = []
      ∧ FileParser.validRecords v
        = length (filter (fun record => acceptedCell column record = true) data)
      ∧ FileParser.validRecords v + FileParser.invalidRecords v = length data
      ∧ length (FileParser.v_warnings v)
        = FileParser.invalidRecords v + (if decide (1000 < length data) then 1 else 0)
      ∧ (FileParser.isValid v = true ↔ 0 < FileParser.validRecords v)
  | None =>
      FileParser.isValid v = false
      ∧ FileParser.v_errors v = [FileParser.noColumnError]
      ∧ FileParser.validRecords v = 0
      ∧ FileParser.invalidRecords v = 0
  end.
Proof.
  intros Hne. cbv zeta. unfold FileParser.validateParsedData.
  destruct data as [|r0 data]; [congruence|].
  destruct (FileParser.findEmailColumn headers) as [column|] eqn:E.
  - apply findEmailColumn_Some in E as [_ Ht]. rewrite Ht.
    cbn [FileParser.emailColumn FileParser.v_errors FileParser.validRecords
         FileParser.invalidRecords FileParser.v_warnings FileParser.isValid].
    destruct (tally_counts column (imap pair (r0 :: data))
                {| FileParser.t_valid := 0; FileParser.t_invalid := 0;
                   FileParser.t_warnings := [] |}) as (H1 & H2 & H3).
    cbv zeta in H1, H2, H3. cbn [FileParser.t_valid FileParser.t_invalid
      FileParser.t_warnings] in H1, H2, H3.
    rewrite length_imap in H2, H3.
    pose proof (filter_snd_length (A:=nat)
                  (fun record => acceptedCell column record = true)
                  (imap pair (r0 :: data))) as Hf.
    rewrite imap_pair_snd in Hf. cbv beta in Hf. rewrite Hf in H1.
    split; [reflexivity|]. split; [reflexivity|].
    split; [rewrite H1; reflexivity|]. split; [rewrite H2; reflexivity|].
    split.
    + rewrite length_app. cbn [length] in H2, H3.
      destruct (decide (1000 < length (r0 :: data))); cbn [length] in *; lia.
    + rewrite andb_true_iff, !bool_decide_eq_true. cbn. split; [tauto|].
      intros H. split; [reflexivity|exact H].
  - cbn. repeat split; reflexivity.
Qed.

Lemma validateParsedData_witness :
  let v := FileParser.validateParsedData sampleRows ["name"; "email"] in
  FileParser.emailColumn v = Some "email"
  ∧ FileParser.validRecords v = 1
  ∧ FileParser.invalidRecords v = 2
  ∧ FileParser.isValid v = true.
Proof.
  pose proof (validateParsedData_counts sampleRows ["name"; "email"]
                ltac:(discriminate)) as H.
  cbv zeta in H.
  change (FileParser.findEmailColumn ["name"; "email"]) with (Some "email") in H.
  destruct H as (H1 & _ & H3 & H4 & _ & H6). cbv zeta.
  split; [exact H1|]. split; [rewrite H3; reflexivity|].
  split; [rewrite H3 in H4; cbn in H4; vm_compute in H4 |- *; reflexivity|].
  apply H6. rewrite H3. vm_compute. lia.
Defined.


Lemma jsTruthy_nonempty s : Send.jsTruthy s = true <-> s <> "".
Proof. destruct s; cbn; split; intros; congruence. Qed.

(** X22. withAuth runs the wrapped handler exactly when the authorization
    header has a non-empty second space-separated word, the secret is set
    and non-empty, and the verification of that word under that secret
    succeeds; the handler is then run with the user name and role of the
    verified payload. In every other case the request is refused with 401,
    500 or 403, and the refusal does not depend on the handler, which is not
    run. *)
Theorem withAuth_runs_handler_exactly_for_verified_tokens
    (verify : string -> string -> option Auth.User) (secret authorization : option string)
    (R : Type) (handler : Auth.User -> R) :
  (forall user r,
     Auth.withAuth verify secret handler authorization = Auth.Passed user r <->
     exists header token key,
       authorization = Some header
       /\ Js.split Auth.space (Js.chars header) !! 1 = Some (Js.chars token)
       /\ token <> ""
       /\ secret = Some key /\ key <> ""
       /\ verify token key = Some user
       /\ r = handler user)
  /\ (forall code message,
        Auth.withAuth verify secret handler authorization = Auth.Refused code message ->
        (code = 401 \/ code = 500 \/ code = 403)
        /\ forall (R' : Type) (handler' : Auth.User -> R'),
             Auth.withAuth verify secret handler' authorization
             = Auth.Refused code message).
Proof.
  unfold Auth.withAuth, Auth.authenticateToken, Auth.bearerToken.
  split.
  - intros user r. split.
    + destruct authorization as [h|]; cbn; [|discriminate].
      destruct (Send.jsTruthy h) eqn:Hh; cbn; [|rewrite Hh; discriminate].
      destruct (Js.split Auth.space (Js.chars h) !! 1) as [t|] eqn:Ht; cbn;
        [|discriminate].
      destruct (Send.jsTruthy (Js.text t)) eqn:Htt; cbn; [|discriminate].
      destruct secret as [key|]; cbn; [|discriminate].
      destruct (Send.jsTruthy key) eqn:Hk; cbn; [|discriminate].
      destruct (verify (Js.text t) key) as [[u ro]|] eqn:Hv; [|discriminate].
      cbn. intros [= <- <-].
      exists h, (Js.text t), key.
      rewrite chars_text. repeat split; try assumption; try reflexivity.
      * now apply jsTruthy_nonempty.
      * now apply jsTruthy_nonempty.
    + intros (h & token & key & -> & Ht & Htok & -> & Hk & Hv & ->).
      apply jsTruthy_nonempty in Htok, Hk.
      cbn. destruct (Send.jsTruthy h) eqn:Hh.
      * rewrite Ht. cbn. rewrite text_chars, Htok, Hk. cbn. rewrite Hv.
        destruct user; reflexivity.
      * destruct h; [|discriminate]. discriminate.
  - intros code message.
    destruct (negb (Send.optTruthy _)) eqn:H1.
    + intros [= <- <-]. split; [now left|]. intros. reflexivity.
    + destruct (negb (Send.optTruthy secret)) eqn:H2.
      * intros [= <- <-]. split; [tauto|]. intros. reflexivity.
      * destruct (verify _ _); [discriminate|].
        intros [= <- <-]. split; [tauto|]. intros. reflexivity.
Qed.

(** A header with a verified token reaches the handler. *)
Lemma withAuth_witness :
  Auth.withAuth (fun token key => if decide (token = "t0k3n" /\ key = "s3cret")
                                  then Some {| Auth.username := Some "admin";
                                               Auth.role := Some "admin" |}
                                  else None)
                (Some "s3cret") (fun user => Auth.role user) (Some "Bearer t0k3n")
  = Auth.Passed {| Auth.username := Some "admin"; Auth.role := Some "admin" |}
                (Some "admin").
Proof.
  apply (proj1 (withAuth_runs_handler_exactly_for_verified_tokens _ _ _ _ _)).
  exists "Bearer t0k3n", "t0k3n", "s3cret". repeat split; discriminate.
Defined.

(** ** Plain text from HTML *)

Lemma spaced_collapse l : ∀ b, spaced b (PlainText.collapseSpaces b l).
Proof.
  induction l as [|c l IH]; intros b; cbn; [exact I|].
  destruct (isWhiteSpace c) eqn:E.
  - destruct b; [apply IH|]. cbn. split; [reflexivity|]. split; [reflexivity|apply IH].
  - cbn. rewrite E. apply IH.
Qed.

Lemma spaced_weaken b l : spaced b l → spaced false l.
Proof.
  destruct l as [|c l]; cbn; [auto|].
  destruct (isWhiteSpace c); [|auto]. intros (? & _ & ?). auto.
Qed.

Lemma spaced_suffix p : ∀ b q, spaced b (p ++ q) → spaced false q.
Proof.
  induction p as [|c p IH]; intros b q; cbn.
  - apply spaced_weaken.
  - destruct (isWhiteSpace c); [intros (_ & _ & H)|intros H]; exact (IH _ _ H).
Qed.

Lemma spaced_prefix p : ∀ b q, spaced b (p ++ q) → spaced b p.
Proof.
  induction p as [|c p IH]; intros b q; cbn; [auto|].
  destruct (isWhiteSpace c).
  - intros (H1 & H2 & H3). eauto.
  - eauto.
Qed.

Lemma trimStart_suffix l :
  (∃ w, l = w ++ trimStart l)
  ∧ ∀ c, head (trimStart l) = Some c → isWhiteSpace c = false.
Proof.
  induction l as [|c l [[w Hw] Hh]]; cbn.
  - split; [exists []; reflexivity|discriminate].
  - destruct (isWhiteSpace c) eqn:E.
    + split; [exists (c :: w); cbn; congruence|exact Hh].
    + split; [exists []; reflexivity|]. cbn. intros ? [= <-]. exact E.
Qed.

Lemma trimEnd_prefix l :
  (∃ w, l = trimEnd l ++ w)
  ∧ ∀ c, last (trimEnd l) = Some c → isWhiteSpace c = false.
Proof.
  unfold trimEnd. destruct (trimStart_suffix (rev l)) as [[w Hw] Hh]. split.
  - exists (rev w). rewrite <- rev_app_distr, <- Hw, rev_involutive. reflexivity.
  - intros c Hc. apply Hh. rewrite <- Hc.
    destruct (trimStart (rev l)) as [|x m]; [reflexivity|].
    cbn. symmetry. apply last_snoc.
Qed.

Lemma trim_ends l :
  (∃ w1 w2, l = w1 ++ trim l ++ w2)
  ∧ (∀ c, head (trim l) = Some c → isWhiteSpace c = false)
  ∧ (∀ c, last (trim l) = Some c → isWhiteSpace c = false).
Proof.
  unfold trim.
  destruct (trimStart_suffix l) as [[w1 H1] Hh].
  destruct (trimEnd_prefix (trimStart l)) as [[w2 H2] Hl].
  split; [exists w1, w2; congruence|]. split; [|exact Hl].
  intros c Hc. apply Hh. rewrite H2.
  destruct (trimEnd (trimStart l)); [discriminate|exact Hc].
Qed.

Lemma spaced_singleSpaced l :
  spaced false l →
  (∀ c, head l = Some c → isWhiteSpace c = false) →
  (∀ c, last l = Some c → isWhiteSpace c = false) →
  singleSpaced l.
Proof.
  intros Hs Hh Hl p c s -> Hc.
  pose proof (spaced_suffix p _ _ Hs) as H. cbn in H. rewrite Hc in H.
  destruct H as (Hb & _ & Hs'). split; [exact Hb|]. split.
  - destruct p as [|a p _] using rev_ind.
    + rewrite (Hh c eq_refl) in Hc. discriminate.
    + exists p, a. split; [reflexivity|].
      destruct (isWhiteSpace a) eqn:Ea; [|reflexivity]. exfalso.
      rewrite <- app_assoc in Hs. apply spaced_suffix in Hs. cbn in Hs.
      rewrite Ea, Hc in Hs. destruct Hs as (_ & _ & _ & [=] & _).
  - destruct s as [|b s'].
    + rewrite (Hl c) in Hc; [discriminate|]. apply last_snoc.
    + exists b, s'. split; [reflexivity|]. cbn in Hs'.
      destruct (isWhiteSpace b); [|reflexivity]. destruct Hs' as (_ & [=] & _).
Qed.

Lemma singleSpaced_spaced l :
  singleSpaced l →
  ∀ q p b, l = p ++ q →
    (b = true → ∀ c, head q = Some c → isWhiteSpace c = false) → spaced b q.
Proof.
  intros Hl q. induction q as [|c q IH]; intros p b Hpq Hb; cbn; [exact I|].
  destruct (isWhiteSpace c) eqn:Ec.
  - destruct (Hl p c q Hpq Ec) as (Hc & _ & (b0 & s' & -> & Hb0)).
    split; [exact Hc|]. split.
    + destruct b; [|reflexivity]. rewrite (Hb eq_refl c eq_refl) in Ec. discriminate.
    + apply (IH (p ++ [c])); [rewrite <- app_assoc; exact Hpq|].
      intros _ ? [= <-]. exact Hb0.
  - apply (IH (p ++ [c])); [rewrite <- app_assoc; exact Hpq|discriminate].
Qed.

Lemma collapse_spaced l : ∀ b, spaced b l → PlainText.collapseSpaces b l = l.
Proof.
  induction l as [|c l IH]; intros b; cbn; [reflexivity|].
  destruct (isWhiteSpace c).
  - intros (-> & -> & H). rewrite (IH true H). reflexivity.
  - intros H. rewrite (IH false H). reflexivity.
Qed.

Lemma trimStart_fixed l :
  (∀ c, head l = Some c → isWhiteSpace c = false) → trimStart l = l.
Proof.
  destruct l as [|c l]; [reflexivity|]. intros H. cbn. rewrite (H c eq_refl). reflexivity.
Qed.

Lemma singleSpaced_trim l : singleSpaced l → trim l = l.
Proof.
  intros Hl.
  assert (Hh : ∀ c, head l = Some c → isWhiteSpace c = false).
  { destruct l as [|c0 l']; [discriminate|]. intros c [= <-].
    destruct (isWhiteSpace c0) eqn:E; [|reflexivity].
    destruct (Hl [] c0 l' eq_refl E) as (_ & (p' & a & Hp & _) & _).
    destruct p'; discriminate. }
  assert (Hla : ∀ c, head (rev l) = Some c → isWhiteSpace c = false).
  { destruct l as [|c0 l' _] using rev_ind; [discriminate|].
    rewrite rev_app_distr. cbn. intros c [= <-].
    destruct (isWhiteSpace c0) eqn:E; [|reflexivity].
    destruct (Hl l' c0 [] eq_refl E) as (_ & _ & (b & s' & [=] & _)). }
  unfold trim, trimEnd. rewrite (trimStart_fixed l Hh), (trimStart_fixed _ Hla).
  apply rev_involutive.
Qed.

Lemma stripTags_plain a b :
  (PlainText.tagOpen ∉ a) →
  PlainText.stripTags false (a ++ b) = a ++ PlainText.stripTags false b.
Proof.
  induction a as [|c a IH]; intros Ha; [reflexivity|].
  apply not_elem_of_cons in Ha as [Hc Ha]. cbn.
  rewrite bool_decide_eq_false_2 by congruence. cbn. rewrite IH by exact Ha. reflexivity.
Qed.

Lemma stripTags_inside t b :
  (PlainText.tagClose ∉ t) →
  PlainText.stripTags true (t ++ PlainText.tagClose :: b) = PlainText.stripTags false b.
Proof.
  induction t as [|c t IH]; intros Ht; cbn.
  - rewrite bool_decide_eq_true_2 by reflexivity. reflexivity.
  - apply not_elem_of_cons in Ht as [Hc Ht].
    rewrite bool_decide_eq_false_2 by congruence. cbn. apply IH, Ht.
Qed.

Lemma replaceLiteral_absent c0 pattern replacement l :
  (c0 ∉ l) → PlainText.replaceLiteral (c0 :: pattern) replacement 0 l = l.
Proof.
  induction l as [|c l IH]; intros Hl; [reflexivity|].
  apply not_elem_of_cons in Hl as [Hc Hl]. cbn.
  rewrite bool_decide_eq_false_2 by congruence. cbn. rewrite IH by exact Hl. reflexivity.
Qed.

Lemma htmlToPlainText_eq l :
  PlainText.htmlToPlainText (text l)
  = text (trim (PlainText.collapseSpaces false
                  (PlainText.decodeEntities (PlainText.stripTags false l)))).
Proof.
  unfold PlainText.htmlToPlainText.
  destruct (text l) as [|c s] eqn:E.
  - apply (f_equal chars) in E. rewrite chars_text in E. subst l. reflexivity.
  - rewrite <- E, chars_text. reflexivity.
Qed.

(** X23. htmlToPlainText returns a text whose only white space is single
    blanks between other characters: no white space at either end, no two
    white-space characters in a row, and no tab, line break or no-break
    space. A tag, from an opening angle bracket to the first closing one
    after it, is dropped: the result is that of the text without the tag.
    A text without opening angle bracket and ampersand whose white space is
    already of that form is returned unchanged. *)
Theorem htmlToPlainText_normalises :
  (∀ html, singleSpaced (chars (PlainText.htmlToPlainText html)))
  ∧ (∀ a t b, (PlainText.tagOpen ∉ a) → (PlainText.tagClose ∉ t) →
       PlainText.htmlToPlainText
         (text (a ++ PlainText.tagOpen :: t ++ PlainText.tagClose :: b))
       = PlainText.htmlToPlainText (text (a ++ b)))
  ∧ (∀ l, (PlainText.tagOpen ∉ l) → (PlainText.ampersand ∉ l) → singleSpaced l →
       PlainText.htmlToPlainText (text l) = text l).
Proof.
  split; [|split].
  - intros html. unfold PlainText.htmlToPlainText.
    destruct html as [|c0 s0]; [intros [|? ?] ? ? [=]|].
    rewrite chars_text.
    set (l := PlainText.collapseSpaces false _).
    pose proof (spaced_collapse _ false : spaced false l) as Hs.
    destruct (trim_ends l) as ((w1 & w2 & Hw) & Hh & Hl).
    apply spaced_singleSpaced; [|exact Hh|exact Hl].
    rewrite Hw in Hs. apply spaced_suffix in Hs. apply spaced_prefix in Hs. exact Hs.
  - intros a t b Ha Ht. rewrite !htmlToPlainText_eq. do 4 f_equal.
    rewrite !stripTags_plain by exact Ha. f_equal. cbn.
    rewrite bool_decide_eq_true_2 by reflexivity.
    rewrite bool_decide_eq_true_2 by (apply elem_of_app; right; left). cbn.
    apply stripTags_inside, Ht.
  - intros l Hlt Hamp Hl. rewrite htmlToPlainText_eq. f_equal.
    rewrite <- (app_nil_r l) at 1. rewrite stripTags_plain by exact Hlt.
    cbn [PlainText.stripTags]. rewrite app_nil_r.
    unfold PlainText.decodeEntities. cbv zeta.
    change (chars "&nbsp;") with (PlainText.ampersand :: chars "nbsp;").
    change (chars "&amp;") with (PlainText.ampersand :: chars "amp;").
    change (chars "&lt;") with (PlainText.ampersand :: chars "lt;").
    change (chars "&gt;") with (PlainText.ampersand :: chars "gt;").
    change (chars "&quot;") with (PlainText.ampersand :: chars "quot;").
    change (chars "&#39;") with (PlainText.ampersand :: chars "#39;").
    do 6 (rewrite (replaceLiteral_absent _ _ _ l Hamp)).
    rewrite collapse_spaced.
    + apply singleSpaced_trim, Hl.
    + apply (singleSpaced_spaced l Hl l [] false eq_refl). discriminate.
Qed.

Lemma htmlToPlainText_witness :
  PlainText.htmlToPlainText "Dear <b>Ann</b>" = PlainText.htmlToPlainText "Dear Ann</b>".
Proof.
  apply (proj1 (proj2 htmlToPlainText_normalises) (chars "Dear ") (chars "b")
           (chars "Ann</b>")).
  - vm_compute. intros Hin.
    repeat (apply elem_of_cons in Hin as [Hin|Hin]; [discriminate|]).
    exact (not_elem_of_nil _ Hin).
  - vm_compute. intros Hin.
    repeat (apply elem_of_cons in Hin as [Hin|Hin]; [discriminate|]).
    exact (not_elem_of_nil _ Hin).
Defined.


(** ** The upload endpoint *)

Lemma excelRecord_email headers row :
  ("email" ∉ headers) → UploadHandler.excelRecord headers row !! "email" = Some "".
Proof.
  intros Hh. unfold UploadHandler.excelRecord.
  assert (H : ∀ (l : list (nat * string)) (m : gmap string string),
            Forall (fun ih => ih.2 ≠ "email") l → m !! "email" = Some "" →
            foldl (fun record ih => <[ih.2 := default "" (row !! ih.1)]> record) m l
              !! "email" = Some "").
  { induction l as [|ih l IH]; intros m Hl Hm; [exact Hm|].
    apply Forall_cons in Hl as [H1 H2]. cbn. apply IH; [exact H2|].
    rewrite lookup_insert_ne by exact H1. exact Hm. }
  apply H; [|apply lookup_singleton_eq].
  apply Forall_forall. intros [k h] Hin. cbn. intros ->.
  apply Hh. apply list_elem_of_lookup in Hin as [j Hj].
  rewrite list_lookup_imap in Hj.
  destruct (headers !! j) as [h|] eqn:E; [|discriminate].
  injection Hj as _ <-. apply list_elem_of_lookup. eauto.
Qed.

Lemma processExcelFile_hasAddress jsonData data headers :
  UploadHandler.processExcelFile jsonData = UploadHandler.Processed data headers →
  Forall (fun record => UploadHandler.hasAddress record = true) data.
Proof.
  unfold UploadHandler.processExcelFile.
  destruct jsonData as [|h rows]; [discriminate|].
  destruct (Upload.findEmailColumn h); [|discriminate].
  intros [= <- <-]. apply Forall_forall. intros r Hr.
  apply list_elem_of_filter in Hr as [Hr _]. exact Hr.
Qed.

(** What holds of the shared variables after any number of events. *)
Lemma csv_fold_hasAddress events : ∀ st,
  Forall (fun record => UploadHandler.hasAddress record = true) (UploadHandler.cs_data st) →
  (∀ d h, UploadHandler.settled st = Some (UploadHandler.Processed d h) →
     Forall (fun record => UploadHandler.hasAddress record = true) d) →
  ∀ d h, UploadHandler.settled (foldl UploadHandler.onEvent st events)
         = Some (UploadHandler.Processed d h) →
    Forall (fun record => UploadHandler.hasAddress record = true) d.
Proof.
  induction events as [|ev events IH]; intros st Hd Hs; [exact Hs|].
  cbn [foldl].
  destruct st as [dat hs p o]. cbn in Hd, Hs.
  destruct ev as [csvHeaders|row| |e]; cbn.
  - destruct (Upload.findEmailColumn csvHeaders); [apply IH; assumption|].
    destruct o as [o|]; cbn; apply IH; cbn; try assumption. discriminate.
  - destruct (p && UploadHandler.hasAddress row) eqn:E; [|apply IH; assumption].
    apply IH; cbn; [|assumption].
    apply Forall_app. split; [exact Hd|].
    apply andb_true_iff in E as [_ E]. repeat constructor. exact E.
  - destruct o as [o|]; cbn; apply IH; cbn; try assumption.
    intros d h [= <- <-]. exact Hd.
  - destruct o as [o|]; cbn; apply IH; cbn; try assumption. discriminate.
Qed.

Lemma processCsvFile_hasAddress events data headers :
  UploadHandler.processCsvFile events = Some (UploadHandler.Processed data headers) →
  Forall (fun record => UploadHandler.hasAddress record = true) data.
Proof.
  unfold UploadHandler.processCsvFile. apply csv_fold_hasAddress.
  - constructor.
  - discriminate.
Qed.

Lemma csv_fold_data rows : ∀ st,
  UploadHandler.headersParsed st = true →
  foldl UploadHandler.onEvent st (map UploadHandler.OnData rows)
  = {| UploadHandler.cs_data :=
         UploadHandler.cs_data st
         ++ filter (fun record => UploadHandler.hasAddress record = true) rows;
       UploadHandler.cs_headers := UploadHandler.cs_headers st;
       UploadHandler.headersParsed := true;
       UploadHandler.settled := UploadHandler.settled st |}.
Proof.
  induction rows as [|row rows IH]; intros [dat hs p o] Hp; cbn in Hp; subst p.
  - cbn. rewrite app_nil_r. reflexivity.
  - cbn [map foldl]. cbn [UploadHandler.onEvent UploadHandler.headersParsed andb
                          UploadHandler.cs_data UploadHandler.cs_headers
                          UploadHandler.settled].
    rewrite filter_cons.
    destruct (UploadHandler.hasAddress row) eqn:E.
    + rewrite decide_True by reflexivity.
      rewrite IH by reflexivity. cbn. rewrite <- app_assoc. reflexivity.
    + rewrite decide_False by discriminate. apply IH. reflexivity.
Qed.

(** X24. The two file processors of the upload endpoint keep only records
    whose field named email is non-blank. For a sheet, the headers are the
    first row, and when no header is exactly email no record is kept, even
    when the column lookup found a header such as Email. For a CSV stream of
    a header event, data events and the end event, the result is the rows
    with a non-blank email field, or the missing-column error when the
    lookup finds no header. *)
Theorem upload_keeps_only_rows_with_an_email_field :
  (∀ jsonData data headers,
     UploadHandler.processExcelFile jsonData = UploadHandler.Processed data headers →
     head jsonData = Some headers
     ∧ Forall (fun record => UploadHandler.hasAddress record = true) data
     ∧ (("email" ∉ headers) → data = []))
  ∧ (∀ events data headers,
       UploadHandler.processCsvFile events = Some (UploadHandler.Processed data headers) →
       Forall (fun record => UploadHandler.hasAddress record = true) data)
  ∧ (∀ csvHeaders rows,
       UploadHandler.processCsvFile
         (UploadHandler.OnHeaders csvHeaders :: map UploadHandler.OnData rows
          ++ [UploadHandler.OnEnd])
       = Some (match Upload.findEmailColumn csvHeaders with
               | Some _ =>
                   UploadHandler.Processed
                     (filter (fun record => UploadHandler.hasAddress record = true) rows)
                     csvHeaders
               | None =>
                   UploadHandler.Rejected (Send.ErrorObject UploadHandler.noColumnMessage)
               end)).
Proof.
  split; [|split].
  - intros jsonData data headers H.
    split; [|split; [exact (processExcelFile_hasAddress _ _ _ H)|]].
    + unfold UploadHandler.processExcelFile in H.
      destruct jsonData as [|h rows]; [discriminate|].
      destruct (Upload.findEmailColumn h); [|discriminate].
      injection H as _ <-. reflexivity.
    + intros Hh. unfold UploadHandler.processExcelFile in H.
      destruct jsonData as [|h rows]; [discriminate|].
      destruct (Upload.findEmailColumn h); [|discriminate].
      injection H as <- <-.
      induction rows as [|row rows IH]; [reflexivity|].
      cbn [map]. rewrite filter_cons, decide_False; [exact IH|].
      unfold UploadHandler.hasAddress. rewrite excelRecord_email by exact Hh.
      discriminate.
  - exact processCsvFile_hasAddress.
  - intros csvHeaders rows. unfold UploadHandler.processCsvFile.
    cbn [foldl]. rewrite foldl_app.
    cbn [UploadHandler.onEvent UploadHandler.csvStart UploadHandler.cs_data
         UploadHandler.settled].
    destruct (Upload.findEmailColumn csvHeaders).
    + rewrite csv_fold_data by reflexivity. reflexivity.
    + rewrite csv_fold_data by reflexivity. reflexivity.
Qed.

Lemma upload_keeps_witness :
  UploadHandler.processExcelFile
    [["Name"; "Email"]; ["Ann"; "ann@example.org"]; ["Bob"; "bob@example.org"]]
  = UploadHandler.Processed [] ["Name"; "Email"].
Proof.
  destruct (UploadHandler.processExcelFile
              [["Name"; "Email"]; ["Ann"; "ann@example.org"]; ["Bob"; "bob@example.org"]])
    as [e|data headers] eqn:E; [vm_compute in E; discriminate|].
  destruct (proj1 upload_keeps_only_rows_with_an_email_field _ _ _ E) as (Hh & _ & Hd).
  injection Hh as <-. rewrite Hd; [reflexivity|].
  intros Hin. repeat (apply elem_of_cons in Hin as [Hin|Hin]; [discriminate|]).
  exact (not_elem_of_nil _ Hin).
Defined.

Lemma respond_counts data headers :
  Forall (fun record => UploadHandler.hasAddress record = true) data →
  let resp := UploadHandler.respond data headers in
  ∃ returned valid invalid,
    UploadHandler.p_data resp = Some returned
    ∧ UploadHandler.totalRecords resp = Some (length data)
    ∧ UploadHandler.validEmails resp = Some valid
    ∧ UploadHandler.invalidEmails resp = Some invalid
    ∧ valid + invalid = length data
    ∧ valid = length (filter (fun record =>
                 Upload.validateEmail (default "" (record !! "email")) = true) data)
    ∧ length returned = min 1000 (length data)
    ∧ Forall (fun v => UploadHandler.hasAddress (UploadHandler.v_record v) = true)
        returned.
Proof.
  intros Hd. cbv zeta. unfold UploadHandler.respond.
  cbn [UploadHandler.p_data UploadHandler.totalRecords UploadHandler.validEmails
       UploadHandler.invalidEmails].
  set (validated := map _ data).
  assert (Hlen : length validated = length data) by apply length_map.
  assert (Hv : length (filter (fun record => UploadHandler.isValidEmail record = true)
                         validated)
               = length (filter (fun record =>
                   Upload.validateEmail (default "" (record !! "email")) = true) data)).
  { subst validated. clear. induction data as [|r data IH]; [reflexivity|].
    cbn [map]. rewrite !filter_cons. cbn [UploadHandler.isValidEmail].
    destruct (decide (Upload.validateEmail (default "" (r !! "email")) = true));
      cbn [length]; rewrite IH; reflexivity. }
  eexists _, _, _. repeat (split; [reflexivity|]).
  split; [|split; [exact Hv|split]].
  - pose proof (length_filter (fun record => UploadHandler.isValidEmail record = true)
                  validated). lia.
  - rewrite length_take, Hlen. reflexivity.
  - apply Forall_take. subst validated. apply Forall_map.
    eapply Forall_impl; [exact Hd|]. auto.
Qed.

(** X25. The upload handler answers a request that is not a POST with 405,
    and a file whose extension (the part after the last dot, in lower case)
    is not csv, xlsx or xls with 400, whatever the file contains. Whenever
    it answers 200, the valid and invalid counts add up to the total number
    of records, the records returned are the first 1000 at most, and each of
    them has a non-blank email field. *)
Theorem upload_handler_answers readCsv readSheet method form :
  (method ≠ Send.POST →
     UploadHandler.handler readCsv readSheet method form
     = Some (UploadHandler.refuse 405 "Method not allowed"))
  ∧ (∀ file, method = Send.POST → form = UploadHandler.FormFile (Some file) →
       (default "" (UploadHandler.fileExtension file) ∉ ["csv"; "xlsx"; "xls"]) →
       UploadHandler.handler readCsv readSheet method form
       = Some (UploadHandler.refuse 400
                 "Invalid file format. Please upload CSV, XLS, or XLSX files only."))
  ∧ (∀ resp, UploadHandler.handler readCsv readSheet method form = Some resp →
       UploadHandler.p_code resp = 200 →
       ∃ returned valid invalid total,
         UploadHandler.p_data resp = Some returned
         ∧ UploadHandler.totalRecords resp = Some total
         ∧ UploadHandler.validEmails resp = Some valid
         ∧ UploadHandler.invalidEmails resp = Some invalid
         ∧ valid + invalid = total
         ∧ length returned = min 1000 total
         ∧ Forall (fun v => UploadHandler.hasAddress (UploadHandler.v_record v) = true)
             returned).
Proof.
  unfold UploadHandler.handler. split; [|split].
  - intros Hm. rewrite decide_True by exact Hm. reflexivity.
  - intros file -> -> Hext. rewrite decide_False by (intros H; apply H; reflexivity).
    rewrite bool_decide_eq_false_2 by exact Hext. reflexivity.
  - intros resp. destruct (decide (method ≠ Send.POST)); [intros [= <-]; discriminate|].
    destruct form as [e|[file|]]; try (intros [= <-]; discriminate).
    destruct (negb _); [intros [= <-]; discriminate|].
    assert (Hfin : ∀ data headers,
              Forall (fun record => UploadHandler.hasAddress record = true) data →
              Some (UploadHandler.respond data headers) = Some resp →
              ∃ returned valid invalid total,
                UploadHandler.p_data resp = Some returned
                ∧ UploadHandler.totalRecords resp = Some total
                ∧ UploadHandler.validEmails resp = Some valid
                ∧ UploadHandler.invalidEmails resp = Some invalid
                ∧ valid + invalid = total
                ∧ length returned = min 1000 total
                ∧ Forall (fun v => UploadHandler.hasAddress (UploadHandler.v_record v)
                                   = true) returned).
    { intros data headers Hd [= <-].
      destruct (respond_counts data headers Hd)
        as (returned & valid & invalid & H1 & H2 & H3 & H4 & H5 & _ & H7 & H8).
      exists returned, valid, invalid, (length data). auto 10. }
    destruct (decide (UploadHandler.fileExtension file = Some "csv")) as [Hcsv|Hcsv].
    + destruct (UploadHandler.processCsvFile _) as [[e|data headers]|] eqn:E;
        try (intros [= <-]; discriminate).
      intros H _. exact (Hfin _ _ (processCsvFile_hasAddress _ _ _ E) H).
    + destruct (readSheet _) as [e|jsonData]; [intros [= <-]; discriminate|].
      destruct (UploadHandler.processExcelFile jsonData) as [e|data headers] eqn:E;
        [intros [= <-]; discriminate|].
      intros H _. exact (Hfin _ _ (processExcelFile_hasAddress _ _ _ E) H).
Qed.

Lemma upload_handler_witness :
  UploadHandler.handler (fun _ => []) (fun _ => UploadHandler.Sheet []) Send.POST
    (UploadHandler.FormFile
       (Some {| UploadHandler.originalFilename := Some "list.csv.PDF";
                UploadHandler.filepath := "/tmp/upload_1" |}))
  = Some (UploadHandler.refuse 400
            "Invalid file format. Please upload CSV, XLS, or XLSX files only.").
Proof.
  apply (proj1 (proj2 (upload_handler_answers _ _ Send.POST _))
           {| UploadHandler.originalFilename := Some "list.csv.PDF";
              UploadHandler.filepath := "/tmp/upload_1" |}); try reflexivity.
  vm_compute. intros Hin.
  repeat (apply elem_of_cons in Hin as [Hin|Hin]; [discriminate|]).
  exact (not_elem_of_nil _ Hin).
Defined.


(** ** Login and the protected endpoints *)

Lemma split_bearer token :
  (Auth.space ∉ chars token) →
  split Auth.space (chars ("Bearer " +:+ token)) !! 1 = Some (chars token).
Proof.
  intros Hs.
  replace (chars ("Bearer " +:+ token))
    with (chars "Bearer" ++ flat_map (fun q => Auth.space :: q) [chars token])
    by (cbn; rewrite app_nil_r; reflexivity).
  rewrite split_pieces; [reflexivity| |repeat constructor; exact Hs].
  vm_compute. intros Hin.
  repeat (apply elem_of_cons in Hin as [Hin|Hin]; [discriminate|]).
  exact (not_elem_of_nil _ Hin).
Qed.

(** X26. Login and the protected endpoints fit together: when the login
    handler returns a token, the request was a POST with the configured
    user name and password; and if the verifier accepts what the signer
    signs, and the token is non-empty and has no blank, then a request
    carrying Bearer and that token reaches the wrapped handler, with the
    configured user name and the role admin. *)
Theorem login_token_opens_protected_endpoints sign verify method body env now token
    (R : Type) (handler : Auth.User → R) :
  verifies sign verify →
  Login.lr_token (Login.handler sign method body env now) = Some token →
  token ≠ "" → (Auth.space ∉ chars token) →
  ∃ adminUsername,
    method = Send.POST
    ∧ Login.ADMIN_USERNAME env = Some adminUsername
    ∧ Login.req_username body = Some adminUsername
    ∧ Login.req_password body = Login.ADMIN_PASSWORD env
    ∧ Auth.withAuth verify (Login.NEXTAUTH_SECRET env) handler
        (Some ("Bearer " +:+ token))
      = Auth.Passed {| Auth.username := Some adminUsername; Auth.role := Some "admin" |}
          (handler {| Auth.username := Some adminUsername;
                      Auth.role := Some "admin" |}).
Proof.
  intros Hv Hlogin Htok Hsp. unfold Login.handler in Hlogin.
  destruct (decide (method ≠ Send.POST)) as [|Hm]; [discriminate|].
  destruct (Login.ADMIN_USERNAME env) as [u|] eqn:Eu; [|discriminate].
  destruct (Login.ADMIN_PASSWORD env) as [p|] eqn:Ep; [|discriminate].
  destruct (Login.NEXTAUTH_SECRET env) as [s|] eqn:Es; [|discriminate].
  destruct (negb (Send.jsTruthy u) || negb (Send.jsTruthy p) || negb (Send.jsTruthy s))
    eqn:Et; [discriminate|].
  destruct (negb (bool_decide (Login.req_username body = Some u))
            || negb (bool_decide (Login.req_password body = Some p))) eqn:Ec;
    [discriminate|].
  destruct (sign _ s) as [t|] eqn:Esign; [|discriminate].
  cbn in Hlogin. injection Hlogin as ->.
  apply orb_false_iff in Ec as [Ec1 Ec2].
  apply negb_false_iff, bool_decide_eq_true in Ec1, Ec2.
  apply orb_false_iff in Et as [_ Et]. apply negb_false_iff in Et.
  exists u. split; [destruct (decide (method = Send.POST)); tauto|].
  split; [reflexivity|]. split; [exact Ec1|]. split; [exact Ec2|].
  unfold Auth.withAuth, Auth.authenticateToken, Auth.bearerToken.
  change (Send.jsTruthy ("Bearer " +:+ token)) with true. cbv iota.
  rewrite split_bearer by exact Hsp. cbn [fmap option_fmap option_map Send.optTruthy].
  rewrite text_chars.
  destruct token as [|c0 token']; [congruence|].
  cbn [Send.jsTruthy negb default]. rewrite Et. cbn [negb]. unfold id.
  rewrite (Hv _ _ _ Esign). reflexivity.
Qed.

Lemma login_token_witness :
  ∃ adminUsername,
    Send.POST = Send.POST
    ∧ Some "root" = Some adminUsername
    ∧ Some "root" = Some adminUsername
    ∧ Some "pw" = Some "pw"
    ∧ Auth.withAuth toyVerify (Some "s3cret") (fun user => Auth.role user)
        (Some "Bearer root")
      = Auth.Passed {| Auth.username := Some adminUsername; Auth.role := Some "admin" |}
          (Some "admin").
Proof.
  apply (login_token_opens_protected_endpoints toySign toyVerify Send.POST
           {| Login.req_username := Some "root"; Login.req_password := Some "pw" |}
           {| Login.ADMIN_USERNAME := Some "root"; Login.ADMIN_PASSWORD := Some "pw";
              Login.NEXTAUTH_SECRET := Some "s3cret" |}
           1700000000000%Z "root" _ (fun user => Auth.role user)).
  - intros claims secret token. unfold toySign, toyVerify.
    destruct (decide (Login.c_role claims = "admin")) as [->|]; [|discriminate].
    intros [= <-]. reflexivity.
  - reflexivity.
  - discriminate.
  - vm_compute. intros Hin.
    repeat (apply elem_of_cons in Hin as [Hin|Hin]; [discriminate|]).
    exact (not_elem_of_nil _ Hin).
Defined.

(** ** The preview of the editor *)







(** ** The Excel parser *)

(** X28. parseExcelFile returns no data, no headers and one error when the
    workbook cannot be read, has no sheet, or has an empty first sheet.
    Otherwise it reports no error, returns the header row, and returns one
    record per further row: the filter for records with some non-empty
    value never drops a record, because each record carries its row number,
    which for the k-th record (from 0) is k + 2. *)
Theorem parseExcelFile_keeps_every_row workbook :
  let parsed := FileParser.parseExcelFile workbook in
  match workbook with
  | FileParser.SheetRows headers rows =>
      FileParser.errors parsed = []
      ∧ FileParser.headers parsed = headers
      ∧ length (FileParser.data parsed) = length rows
      ∧ ∀ k record, FileParser.data parsed !! k = Some record →
          record !! "_rowIndex" = Some (FileParser.CellNumber (k + 2))
  | _ =>
      FileParser.data parsed = [] ∧ FileParser.headers parsed = []
      ∧ length (FileParser.errors parsed) = 1
  end.
Proof.
  cbv zeta. destruct workbook as [e| | |headers rows]; try (repeat split; reflexivity).
  unfold FileParser.parseExcelFile.
  cbn [FileParser.errors FileParser.headers FileParser.data].
  rewrite filter_keeps_all.
  - split; [reflexivity|]. split; [reflexivity|]. split; [apply length_imap|].
    intros k record Hk. rewrite list_lookup_imap in Hk.
    destruct (rows !! k); [|discriminate]. injection Hk as <-.
    apply lookup_insert_eq.
  - apply Forall_forall. intros record Hin.
    apply list_elem_of_lookup in Hin as [k Hk]. rewrite list_lookup_imap in Hk.
    destruct (rows !! k); [|discriminate]. injection Hk as <-.
    unfold FileParser.someValue, FileParser.excelRecordOf. apply bool_decide_eq_true.
    exists "_rowIndex", (FileParser.CellNumber (k + 2)).
    split; [apply lookup_insert_eq|discriminate].
Qed.
